(** * branch-switcher: a shallow embedding of main.go

    The program is a Bubble Tea TUI that discovers sibling Git
    repositories, lets the user select some of them, and runs a fixed
    sequence of [git] commands in each.  External commands are modelled
    by a runner over an abstract world [W]; the state also records a log
    of every command issued together with its result. *)

From Stdlib Require Import ZArith Lia Ascii Sorting.Sorted Sorting.Permutation.
From stdpp Require Import base list gmap strings pretty.
Import ListNotations.
Open Scope string_scope.
Open Scope list_scope.

(* ------------------------------------------------------------------ *)
(** ** External commands *)

(** [exec.Command("git", args...)] is identified by its argument list. *)
Definition command := list string.

(** The [error] returned by [Run()] of [exec.Cmd]: nil (modelled by
    [None]), an [exec.ExitError] (exit status and what the process wrote
    on stderr), or a failure to start the process. *)
Inductive exec_error :=
  | ExitError (code : Z) (stderr : string)
  | StartError (text : string).

(** [err.Error()]: an [exec.ExitError] prints as "exit status N"; its
    [Stderr] field is only filled by [Output()], never by [Run()], and is
    not part of the text in any case. *)
Definition exec_error_text (e : exec_error) : string :=
  match e with
  | ExitError code _ => "exit status " +:+ pretty code
  | StartError text => text
  end.

(** A runner gives the result of running a command in a world. *)
Definition runner (W : Type) := command -> W -> option exec_error * W.

(** The state threaded through the program: the world and the log of
    commands issued so far, each with its result. *)
Definition log_entry := (command * option exec_error)%type.
Definition state (W : Type) := (W * list log_entry)%type.

(** A small state monad over [state W]. *)
Definition M (W A : Type) := state W -> A * state W.

Definition ret {W A} (a : A) : M W A := fun s => (a, s).
Definition bind {W A B} (m : M W A) (f : A -> M W B) : M W B :=
  fun s => let '(a, s') := m s in f a s'.

Notation "'let!' x := m 'in' k" := (bind m (fun x => k))
  (at level 200, x name, m at level 100, k at level 200).

(** [exec.Command(...).Run()]. *)
Definition run_cmd {W} (run : runner W) (c : command) : M W (option exec_error) :=
  fun '(w, log) => let '(r, w') := run c w in (r, (w', (log ++ [(c, r)])%list)).

Definition git (projectPath : string) (args : list string) : command :=
  "git" :: "-C" :: projectPath :: args.

(** The commands of [switchBranch]. *)
Definition stash_cmd p := git p ["stash"].
Definition fetch_cmd p := git p ["fetch"; "origin"].
Definition delete_main_cmd p := git p ["branch"; "-D"; "main"].
Definition checkout_main_cmd p := git p ["checkout"; "--track"; "origin/main"].
Definition pull_cmd p := git p ["pull"; "origin"; "main"].
Definition create_branch_cmd p b := git p ["checkout"; "-b"; b].

(* ------------------------------------------------------------------ *)
(** ** switchBranch *)

(** [fmt.Errorf(prefix ++ "%v", err)]: the error is kept with its
    format prefix and its cause; its text is [go_error_text]. *)
Inductive go_error := Errorf (prefix : string) (cause : exec_error).

Definition go_error_text (e : go_error) : string :=
  match e with Errorf prefix cause => prefix +:+ exec_error_text cause end.

Definition fetch_prefix := "failed to fetch: ".
Definition checkout_prefix := "failed to checkout main: ".
Definition pull_prefix := "failed to pull: ".
Definition branch_prefix := "failed to create branch: ".

(** [func switchBranch(projectPath, branchName string) error] *)
Definition switchBranch {W} (run : runner W) (projectPath branchName : string)
    : M W (option go_error) :=
  let! _ := run_cmd run (stash_cmd projectPath) in
  let! r := run_cmd run (fetch_cmd projectPath) in
  match r with
  | Some err => ret (Some (Errorf fetch_prefix err))
  | None =>
    let! _ := run_cmd run (delete_main_cmd projectPath) in
    let! r := run_cmd run (checkout_main_cmd projectPath) in
    match r with
    | Some err => ret (Some (Errorf checkout_prefix err))
    | None =>
      let! r := run_cmd run (pull_cmd projectPath) in
      match r with
      | Some err => ret (Some (Errorf pull_prefix err))
      | None =>
        if negb (String.eqb branchName "") then
          let! r := run_cmd run (create_branch_cmd projectPath branchName) in
          match r with
          | Some err => ret (Some (Errorf branch_prefix err))
          | None => ret None
          end
        else ret None
      end
    end
  end.

(* ------------------------------------------------------------------ *)
(** ** The executor as the spec describes it *)

(** [OperationSpec]; the program passes its new-branch name to
    [switchBranch], and [""] for the plain switch. *)
Inductive operation_spec :=
  | SwitchToMain
  | SwitchToMainAndBranch (newBranchName : string).

Definition op_branch (op : operation_spec) : string :=
  match op with
  | SwitchToMain => ""
  | SwitchToMainAndBranch n => n
  end.

Definition valid_op (op : operation_spec) : Prop :=
  match op with
  | SwitchToMain => True
  | SwitchToMainAndBranch n => n <> ""
  end.

Inductive stage := Fetch | Checkout | Pull | BranchCreate.

Definition stage_prefix (st : stage) : string :=
  match st with
  | Fetch => fetch_prefix
  | Checkout => checkout_prefix
  | Pull => pull_prefix
  | BranchCreate => branch_prefix
  end.

(** The command whose failure aborts the sequence at a stage. *)
Definition stage_cmd (p b : string) (st : stage) : command :=
  match st with
  | Fetch => fetch_cmd p
  | Checkout => checkout_main_cmd p
  | Pull => pull_cmd p
  | BranchCreate => create_branch_cmd p b
  end.

(** A step is best-effort (its failure is ignored) or aborting with a
    stage. *)
Inductive step_kind := BestEffort | Aborting (st : stage).

(** The fixed sequence of steps of the spec, per operation. *)
Definition spec_steps (p : string) (op : operation_spec) : list (command * step_kind) :=
  [(stash_cmd p, BestEffort);
   (fetch_cmd p, Aborting Fetch);
   (delete_main_cmd p, BestEffort);
   (checkout_main_cmd p, Aborting Checkout);
   (pull_cmd p, Aborting Pull)] ++
  match op with
  | SwitchToMain => []
  | SwitchToMainAndBranch n => [(create_branch_cmd p n, Aborting BranchCreate)]
  end.

(** [Trace steps ex r]: [ex] is the log of running [steps] in order,
    continuing past best-effort failures, stopping at the first failing
    aborting step with its stage, and [r] is the outcome ([None] is
    Success). *)
Inductive Trace : list (command * step_kind) -> list log_entry ->
                  option (stage * exec_error) -> Prop :=
  | Trace_done : Trace [] [] None
  | Trace_abort c st e rest :
      Trace ((c, Aborting st) :: rest) [(c, Some e)] (Some (st, e))
  | Trace_next c k res rest ex r :
      (k = BestEffort \/ res = None) ->
      Trace rest ex r ->
      Trace ((c, k) :: rest) ((c, res) :: ex) r.

Definition outcome_error (o : option (stage * exec_error)) : option go_error :=
  match o with
  | None => None
  | Some (st, e) => Some (Errorf (stage_prefix st) e)
  end.

(* ------------------------------------------------------------------ *)
(** ** The model (Elm-style) *)

Record project := { name : string; path : string }.

(** [type mode int] *)
Inductive Mode := modeSelectAction | modeSelectProjects | modeEnterBranch | modeProcessing.

(** [type model struct]; Go [int]s are [Z]; [selected] is the Go
    [map[int]bool], a reference shared by the copies of the model. *)
Record model := {
  projects : list project;
  selected : gmap Z bool;
  cursor : Z;
  mode : Mode;
  action : Z;
  branchName : string;
  processing : bool;
  error : string
}.

Definition set_cursor (c : Z) (m : model) : model :=
  {| projects := projects m; selected := selected m; cursor := c; mode := mode m;
     action := action m; branchName := branchName m; processing := processing m;
     error := error m |}.
Definition set_selected (s : gmap Z bool) (m : model) : model :=
  {| projects := projects m; selected := s; cursor := cursor m; mode := mode m;
     action := action m; branchName := branchName m; processing := processing m;
     error := error m |}.
Definition set_mode (md : Mode) (m : model) : model :=
  {| projects := projects m; selected := selected m; cursor := cursor m; mode := md;
     action := action m; branchName := branchName m; processing := processing m;
     error := error m |}.
Definition set_action (a : Z) (m : model) : model :=
  {| projects := projects m; selected := selected m; cursor := cursor m; mode := mode m;
     action := a; branchName := branchName m; processing := processing m;
     error := error m |}.
Definition set_branchName (b : string) (m : model) : model :=
  {| projects := projects m; selected := selected m; cursor := cursor m; mode := mode m;
     action := action m; branchName := b; processing := processing m;
     error := error m |}.
Definition set_error (e : string) (m : model) : model :=
  {| projects := projects m; selected := selected m; cursor := cursor m; mode := mode m;
     action := action m; branchName := branchName m; processing := processing m;
     error := e |}.

(** The messages the batch sends back ([msg{Type: ...}]). *)
Inductive msg := MsgProcessComplete | MsgError (e : go_error).

(** [tea.Msg]: a key press (by its [String()]) or a message of ours. *)
Inductive tea_msg := KeyMsg (key : string) | AppMsg (m : msg).

(** [tea.Cmd]: [tea.Quit], or the tick returned by [processProjects],
    a closure over the model copy [m] and the branch name. *)
Inductive tea_cmd := Quit | ProcessProjects (m : model) (branch : string).

(** [for i := range m.projects { m.selected[i] = true }] *)
Definition select_all (n : nat) (s : gmap Z bool) : gmap Z bool :=
  foldl (fun acc i => <[Z.of_nat i := true]> acc) s (seq 0 n).

(** [m.selected[k]]: a missing key reads as [false]. *)
Definition sel_get (s : gmap Z bool) (k : Z) : bool := default false (s !! k).

Definition updateActionSelect (m : model) (key : string) : model * option tea_cmd :=
  if (key =? "q") || (key =? "ctrl+c") then (m, Some Quit)
  else if (key =? "up") || (key =? "k") then
    ((if (0 <? cursor m)%Z then set_cursor (cursor m - 1) m else m), None)
  else if (key =? "down") || (key =? "j") then
    ((if (cursor m <? 1)%Z then set_cursor (cursor m + 1) m else m), None)
  else if key =? "enter" then
    (set_selected (select_all (length (projects m)) (selected m))
       (set_cursor 0 (set_mode modeSelectProjects (set_action (cursor m) m))), None)
  else (m, None).

Definition updateProjectSelect (m : model) (key : string) : model * option tea_cmd :=
  if (key =? "q") || (key =? "ctrl+c") then (m, Some Quit)
  else if key =? "esc" then
    (set_selected ∅ (set_cursor 0 (set_mode modeSelectAction m)), None)
  else if (key =? "up") || (key =? "k") then
    ((if (0 <? cursor m)%Z then set_cursor (cursor m - 1) m else m), None)
  else if (key =? "down") || (key =? "j") then
    ((if (cursor m <? Z.of_nat (length (projects m)) - 1)%Z
      then set_cursor (cursor m + 1) m else m), None)
  else if key =? " " then
    (set_selected (<[cursor m := negb (sel_get (selected m) (cursor m))]> (selected m)) m,
     None)
  else if key =? "a" then
    let allSelected := Nat.eqb (size (selected m)) (length (projects m)) in
    (set_selected (if allSelected then ∅ else select_all (length (projects m)) ∅) m, None)
  else if key =? "enter" then
    if Nat.eqb (size (selected m)) 0 then (set_error "No projects selected" m, None)
    else if (action m =? 1)%Z then
      (set_branchName "" (set_mode modeEnterBranch m), None)
    else (m, Some (ProcessProjects m ""))
  else (m, None).

(** [m.branchName[:len(m.branchName)-1]] *)
Definition drop_last (s : string) : string :=
  String.substring 0 (String.length s - 1) s.

Definition updateBranchInput (m : model) (key : string) : model * option tea_cmd :=
  if (key =? "q") || (key =? "ctrl+c") then (m, Some Quit)
  else if key =? "esc" then (set_mode modeSelectProjects m, None)
  else if key =? "enter" then
    if branchName m =? "" then (set_error "Branch name cannot be empty" m, None)
    else (m, Some (ProcessProjects m (branchName m)))
  else if key =? "backspace" then
    ((if (0 <? String.length (branchName m))%nat
      then set_branchName (drop_last (branchName m)) m else m), None)
  else if Nat.eqb (String.length key) 1 then
    (set_branchName (branchName m +:+ key) m, None)
  else (m, None).

(** [func (m model) Update(message tea.Msg) (tea.Model, tea.Cmd)] *)
Definition Update (m : model) (message : tea_msg) : model * option tea_cmd :=
  match message with
  | KeyMsg key =>
    match mode m with
    | modeSelectAction => updateActionSelect m key
    | modeSelectProjects => updateProjectSelect m key
    | modeEnterBranch => updateBranchInput m key
    | modeProcessing => (m, None)
    end
  | AppMsg _ => (m, None)
  end.

(** Feeding a sequence of key presses to [Update], keeping the last
    command returned. *)
Fixpoint run_keys (m : model) (keys : list string) (c : option tea_cmd)
    : model * option tea_cmd :=
  match keys with
  | [] => (m, c)
  | k :: ks => let '(m', c') := Update m (KeyMsg k) in run_keys m' ks c'
  end.

(* ------------------------------------------------------------------ *)
(** ** processProjects *)

(** [m.projects[id]]; [None] when Go would panic with an index out of
    range. *)
Definition project_at (ps : list project) (id : Z) : option project :=
  if (id <? 0)%Z then None else ps !! Z.to_nat id.

(** The body of the tick callback: [for id, selected := range m.selected]
    visits the keys in the order [ks] (Go's map iteration order is
    unspecified).  [None] is a panic. *)
Fixpoint process_loop {W} (run : runner W) (ps : list project) (sel : gmap Z bool)
    (branchName : string) (ks : list Z) : M W (option msg) :=
  match ks with
  | [] => ret (Some MsgProcessComplete)
  | id :: ks' =>
    match sel !! id with
    | Some true =>
      match project_at ps id with
      | None => ret None
      | Some pr =>
        let! err := switchBranch run (path pr) branchName in
        match err with
        | Some e => ret (Some (MsgError e))
        | None => process_loop run ps sel branchName ks'
        end
      end
    | _ => process_loop run ps sel branchName ks'
    end
  end.

(** The loop over the map as it stands while the loop runs: the event
    loop does not touch it in between.  [m.selected] is shared with the
    event loop, which may write it during the loop; the runtime section
    below models that sharing. *)
Definition processProjects {W} (run : runner W) (m : model) (branchName : string)
    (ks : list Z) : M W (option msg) :=
  process_loop run (projects m) (selected m) branchName ks.

(** A valid iteration order of a Go map visits each key once. *)
Definition iteration_order (sel : gmap Z bool) (ks : list Z) : Prop :=
  ks ≡ₚ (map_to_list sel).*1.


(* ------------------------------------------------------------------ *)
(** ** findProjects and main *)

(** An [os.DirEntry]: its name and whether it is a directory. *)
Record dir_entry := { entry_name : string; entry_is_dir : bool }.

(** The file system as the program sees it: [os.Getwd()] ([None] on
    error), [os.ReadDir(dir)] (the entries read, and the error if any: Go
    returns the entries read before the error), and [os.Stat(p)]
    ([None] on error, else [IsDir()]). *)
Record fs := {
  getwd : option string;
  read_dir : string -> list dir_entry * option string;
  stat : string -> option bool
}.

(** [filepath.Dir] on a clean path: everything before the last slash,
    ["/"] when that is empty, ["."] when there is no slash. *)
Definition filepath_Dir (p : string) : string :=
  let fix upto_last_slash (rcs : list Ascii.ascii) : option (list Ascii.ascii) :=
    match rcs with
    | [] => None
    | c :: rcs' => if Ascii.eqb c "/"%char then Some rcs' else upto_last_slash rcs'
    end in
  match upto_last_slash (rev (String.list_ascii_of_string p)) with
  | None => "."
  | Some [] => "/"
  | Some rcs => String.string_of_list_ascii (rev rcs)
  end.

(** [filepath.Join(dir, elem)] for a clean [dir] and a plain name. *)
Definition filepath_Join (dir elem : string) : string :=
  if dir =? "/" then dir +:+ elem else dir +:+ "/" +:+ elem.

(** The [less] of [sort.Slice]: byte-wise string comparison of names. *)
Definition name_less (a b : project) : bool := String.ltb (name a) (name b).

(** Insertion of [x] into a sorted list, after every element not greater
    than it (what Go's insertion sort does). *)
Fixpoint insert_by_name (x : project) (l : list project) : list project :=
  match l with
  | [] => [x]
  | y :: l' => if name_less x y then x :: l else y :: insert_by_name x l'
  end.

(** [sort.Slice(projects, less)].  Go sorts short slices by insertion
    and longer ones by pattern-defeating quicksort; the names in one
    directory are distinct, so every correct sort gives this result. *)
Definition sort_by_name (l : list project) : list project :=
  fold_left (fun acc x => insert_by_name x acc) l [].

Definition parent_dir (f : fs) : string := filepath_Dir (default "" (getwd f)).

(** The body of the loop over [dirs]. *)
Definition add_project (f : fs) (parentDir : string) (acc : list project)
    (dir : dir_entry) : list project :=
  if entry_is_dir dir then
    let gitPath := filepath_Join (filepath_Join parentDir (entry_name dir)) ".git" in
    match stat f gitPath with
    | Some true =>
      acc ++ [{| name := entry_name dir; path := filepath_Join parentDir (entry_name dir) |}]
    | _ => acc
    end
  else acc.

(** [func findProjects() []project]: both the [os.Getwd] and the
    [os.ReadDir] errors are discarded ([cwd, _ :=], [dirs, _ :=]). *)
Definition findProjects (f : fs) : list project :=
  let parentDir := parent_dir f in
  let dirs := fst (read_dir f parentDir) in
  sort_by_name (fold_left (add_project f parentDir) dirs []).

Definition initialModel (ps : list project) : model :=
  {| projects := ps; selected := ∅; cursor := 0; mode := modeSelectAction;
     action := 0; branchName := ""; processing := false; error := "" |}.

(** What [main] does before the TUI: exit with a status and a line on
    stdout, or run the program from its initial model. *)
Inductive main_result :=
  | ExitWith (status : Z) (output : string)
  | RunProgram (m : model).

Definition no_repos_message := "No Git repositories found in parent directory".

Definition main (f : fs) : main_result :=
  let ps := findProjects f in
  if Nat.eqb (length ps) 0 then ExitWith 1 no_repos_message
  else RunProgram (initialModel ps).

(* ------------------------------------------------------------------ *)
(** ** Vocabulary for the statements *)

(** The commands [switchBranch] issues when none fails. *)
Definition branch_cmds (p b : string) : list command :=
  [stash_cmd p; fetch_cmd p; delete_main_cmd p; checkout_main_cmd p; pull_cmd p] ++
  (if b =? "" then [] else [create_branch_cmd p b]).

Definition ok_entries (p b : string) : list log_entry :=
  map (fun c => (c, None)) (branch_cmds p b).

(** The projects the loop runs, in iteration order. *)
Fixpoint selected_projects (ps : list project) (sel : gmap Z bool) (ks : list Z)
    : list project :=
  match ks with
  | [] => []
  | id :: ks' =>
    match sel !! id, project_at ps id with
    | Some true, Some pr => pr :: selected_projects ps sel ks'
    | _, _ => selected_projects ps sel ks'
    end
  end.

(** Every selected key visited names a project (no index panic). *)
Definition in_range (ps : list project) (sel : gmap Z bool) (ks : list Z) : Prop :=
  forall id, In id ks -> sel !! id = Some true -> is_Some (project_at ps id).

(** A runner whose results do not depend on the world. *)
Definition pure_runner (res : command -> option exec_error) : runner unit :=
  fun c _ => (res c, tt).

Definition switch_result (res : command -> option exec_error) (p b : string)
    : option go_error :=
  fst (switchBranch (pure_runner res) p b (tt, [])).

(** The message of the first failure, or completion. *)
Fixpoint first_error (outs : list (option go_error)) : msg :=
  match outs with
  | [] => MsgProcessComplete
  | Some e :: _ => MsgError e
  | None :: outs' => first_error outs'
  end.

(** A runner that fails exactly the commands of [bad] with exit status
    1 and the given stderr; the world counts the commands run. *)
Definition failing_runner (bad : list (command * string)) : runner nat :=
  fun c n =>
    match list_find (fun '(c', _) => c' = c) bad with
    | Some (_, (_, msg)) => (Some (ExitError 1 msg), S n)
    | None => (None, S n)
    end.

(* ------------------------------------------------------------------ *)
(** ** Concrete batches *)

Definition repo_a := {| name := "a"; path := "/r/a" |}.
Definition repo_b := {| name := "b"; path := "/r/b" |}.

(** Both repositories selected, as after confirming the action. *)
Definition sel_ab : gmap Z bool := {[ 0%Z := true; 1%Z := true ]}.

(** The fetch of [repo_a] fails; everything else succeeds. *)
Definition fetch_a_fails : runner nat :=
  failing_runner [(fetch_cmd "/r/a", "fatal: 'origin' does not appear to be a git repository")].

(** [repo_a]'s fetch and [repo_b]'s checkout fail. *)
Definition both_fail : runner nat :=
  failing_runner [(fetch_cmd "/r/a", "fatal: couldn't find remote ref main");
                  (checkout_main_cmd "/r/b", "error: pathspec 'origin/main' did not match")].


(** The model after choosing the action "create new branch" (cursor
    down, enter) and toggling the only repository off. *)
Definition unselected_one : model :=
  fst (run_keys (initialModel [repo_a]) ["down"; "enter"; " "] None).

(** The model after choosing "switch to main" with two repositories and
    toggling the second off: the selection is {a}, not the full set. *)
Definition only_a_selected : model :=
  fst (run_keys (initialModel [repo_a; repo_b]) ["enter"; "down"; " "] None).

(** The selection screen after choosing "switch to main" with a and b. *)
Definition both_selected_screen : model :=
  fst (run_keys (initialModel [repo_a; repo_b]) ["enter"] None).

(** The model on the selection screen after choosing "switch to main". *)
Definition plain_switch_screen : model :=
  fst (run_keys (initialModel [repo_a]) ["enter"] None).

(* ------------------------------------------------------------------ *)
(** ** Discovery vocabulary and concrete file systems *)

Definition qualifies (f : fs) (parentDir : string) (e : dir_entry) : bool :=
  entry_is_dir e &&
  bool_decide (stat f (filepath_Join (filepath_Join parentDir (entry_name e)) ".git")
               = Some true).

Definition to_project (parentDir : string) (e : dir_entry) : project :=
  {| name := entry_name e; path := filepath_Join parentDir (entry_name e) |}.

Definition name_lt (a b : project) : Prop := name_less a b = true.

(** Concrete file systems; the working directory is /r/tool. *)
Definition fs_unreadable : fs :=
  {| getwd := Some "/r/tool";
     read_dir := fun _ => ([], Some "open /r: permission denied");
     stat := fun _ => None |}.

Definition fs_empty : fs :=
  {| getwd := Some "/r/tool"; read_dir := fun _ => ([], None); stat := fun _ => None |}.

(** /r holds b and a (Git repositories), docs (no .git), c (whose .git
    is a file) and a plain file notes.txt. *)
Definition fs_mixed : fs :=
  {| getwd := Some "/r/tool";
     read_dir := fun d =>
       if d =? "/r" then
         ([{| entry_name := "b"; entry_is_dir := true |};
           {| entry_name := "notes.txt"; entry_is_dir := false |};
           {| entry_name := "a"; entry_is_dir := true |};
           {| entry_name := "docs"; entry_is_dir := true |};
           {| entry_name := "c"; entry_is_dir := true |}], None)
       else ([], Some "no such directory");
     stat := fun p =>
       if (p =? "/r/a/.git") || (p =? "/r/b/.git") then Some true
       else if p =? "/r/c/.git" then Some false
       else None |}.


(* ------------------------------------------------------------------ *)
(** ** Invariants of the reachable UI states *)

(** What every model reached from [initialModel ps] satisfies: the
    projects never change, every key of the selection map is a project
    index, the action is 0 or 1, the [processing] flag stays false, the
    cursor is a row of the current screen (the two actions, or the
    projects), the branch screen is only open for the action "create
    branch" with a non-empty map, and [modeProcessing] is never entered. *)
Definition ui_inv (ps : list project) (m : model) : Prop :=
  projects m = ps /\
  (forall k b, selected m !! k = Some b -> (0 <= k < Z.of_nat (length ps))%Z) /\
  (0 <= action m <= 1)%Z /\
  processing m = false /\
  match mode m with
  | modeSelectAction => (0 <= cursor m <= 1)%Z
  | modeSelectProjects => (0 <= cursor m < Z.of_nat (length ps))%Z
  | modeEnterBranch =>
      (0 <= cursor m < Z.of_nat (length ps))%Z /\ action m = 1%Z /\
      size (selected m) <> 0%nat
  | modeProcessing => False
  end.

(** The byte ['q'] does not occur in [s]. *)
Definition no_q (s : string) : Prop := ~ In "q"%char (String.list_ascii_of_string s).

(** The TUI started by [main] on [fs_mixed] (repositories a and b). *)
Definition mixed_start : model := initialModel (findProjects fs_mixed).

(** The selection screen for "create branch" (cursor down, enter). *)
Definition create_select_screen : model :=
  fst (run_keys mixed_start ["down"; "enter"] None).

(** The branch screen, reached by confirming that selection. *)
Definition branch_screen : model :=
  fst (run_keys mixed_start ["down"; "enter"; "enter"] None).

(** The selection screen after toggle-all emptied the map. *)
Definition empty_selection_screen : model :=
  fst (run_keys mixed_start ["enter"; "a"] None).

(* ------------------------------------------------------------------ *)
(** ** The Bubble Tea runtime around [Update]

    [tea.NewProgram(initialModel).Run()] hands every key to [Update] on
    its event loop and runs every [tea.Cmd] that [Update] returns in a
    goroutine of its own; the message the command returns is sent back
    to [Update].  The batch of [processProjects] is such a command: a
    [tea.Tick] that waits 100ms and then runs the loop.  The closure's
    [m] is a copy of the model, but [m.selected] is a Go map, that is a
    reference: the loop reads the very map the event loop keeps writing
    ([m.selected[i] = ...] on enter and space), until the event loop
    replaces it with [make(map[int]bool)] (esc and toggle-all), after
    which nobody writes the batch's map any more.

    The runtime below interleaves key presses, message deliveries and
    the steps of every running batch: its tick, each key the loop
    reaches (reading the value the map holds at that moment) with the
    whole [switchBranch] of that repository, and its end.  The git
    commands only touch the world, which [Update] never reads, so
    running a repository's commands in one step loses no behaviour. *)

(** Whether the key makes [Update] replace the map
    ([m.selected = make(map[int]bool)], lines 132 and 145). *)
Definition replaces_map (m : model) (key : string) : bool :=
  match mode m with
  | modeSelectProjects => (key =? "esc") || (key =? "a")
  | _ => false
  end.

(** The map a batch reads: the event loop's current map, or a map the
    event loop has replaced (frozen since). *)
Inductive map_ref := LiveMap | OldMap (s : gmap Z bool).

(** Before the tick, during the loop (the keys the map held when the
    loop started), and after it ([None]: the loop panicked). *)
Inductive batch_phase :=
  | Ticking
  | Iterating (start : list Z)
  | Finished (result : option msg).

(** A running batch: [m.projects] of its copy, its map, its branch name,
    its phase, the keys reached with the value read, and the log of the
    commands it ran. *)
Record batch := {
  bt_projects : list project;
  bt_map : map_ref;
  bt_branch : string;
  bt_phase : batch_phase;
  bt_reads : list (Z * bool);
  bt_log : list log_entry
}.

Record runtime (W : Type) := mk_runtime {
  rt_ui : model;
  rt_quit : bool;
  rt_batches : list batch;
  rt_inbox : list msg;
  rt_world : W
}.
Arguments mk_runtime {W}.
Arguments rt_ui {W}.
Arguments rt_quit {W}.
Arguments rt_batches {W}.
Arguments rt_inbox {W}.
Arguments rt_world {W}.

Definition map_of (m : model) (r : map_ref) : gmap Z bool :=
  match r with LiveMap => selected m | OldMap s => s end.

Definition set_bt_map (r : map_ref) (bt : batch) : batch :=
  {| bt_projects := bt_projects bt; bt_map := r; bt_branch := bt_branch bt;
     bt_phase := bt_phase bt; bt_reads := bt_reads bt; bt_log := bt_log bt |}.

Definition set_bt_phase (ph : batch_phase) (bt : batch) : batch :=
  {| bt_projects := bt_projects bt; bt_map := bt_map bt; bt_branch := bt_branch bt;
     bt_phase := ph; bt_reads := bt_reads bt; bt_log := bt_log bt |}.

(** The event loop replaced the map [s]: a batch reading it keeps it. *)
Definition detach (s : gmap Z bool) (bt : batch) : batch :=
  match bt_map bt with
  | LiveMap => set_bt_map (OldMap s) bt
  | OldMap _ => bt
  end.

(** The goroutine of a [ProcessProjects m0 b] command; [m0.selected] is
    the event loop's current map. *)
Definition new_batch (m0 : model) (b : string) : batch :=
  {| bt_projects := projects m0; bt_map := LiveMap; bt_branch := b;
     bt_phase := Ticking; bt_reads := []; bt_log := [] |}.

Definition rt_init {W} (m : model) (w : W) : runtime W :=
  mk_runtime m false [] [] w.

(** The event loop handles a key. *)
Definition key_step {W} (rs : runtime W) (key : string) : runtime W :=
  let m := rt_ui rs in
  let bts := if replaces_map m key then map (detach (selected m)) (rt_batches rs)
             else rt_batches rs in
  match Update m (KeyMsg key) with
  | (m', Some Quit) => mk_runtime m' true bts (rt_inbox rs) (rt_world rs)
  | (m', Some (ProcessProjects m0 b)) =>
      mk_runtime m' false (bts ++ [new_batch m0 b]) (rt_inbox rs) (rt_world rs)
  | (m', None) => mk_runtime m' false bts (rt_inbox rs) (rt_world rs)
  end.

(** The event loop receives the first message sent back. *)
Definition deliver_step {W} (rs : runtime W) : runtime W :=
  match rt_inbox rs with
  | [] => rs
  | x :: inbox =>
      mk_runtime (fst (Update (rt_ui rs) (AppMsg x))) (rt_quit rs) (rt_batches rs) inbox
                 (rt_world rs)
  end.

(** Batch [i]'s tick fires; the loop starts over the keys [ks]. *)
Definition tick_step {W} (rs : runtime W) (i : nat) (ks : list Z) : runtime W :=
  match rt_batches rs !! i with
  | Some bt =>
      mk_runtime (rt_ui rs) (rt_quit rs) (<[i := set_bt_phase (Iterating ks) bt]> (rt_batches rs))
                 (rt_inbox rs) (rt_world rs)
  | None => rs
  end.

(** Batch [i]'s loop reaches key [k]: [if !selected { continue }],
    [m.projects[id]] (a panic ends the program) and [switchBranch]; an
    error ends the loop with [msgError]. *)
Definition visit_step {W} (run : runner W) (rs : runtime W) (i : nat) (k : Z) : runtime W :=
  match rt_batches rs !! i with
  | None => rs
  | Some bt =>
    let v := sel_get (map_of (rt_ui rs) (bt_map bt)) k in
    let read := {| bt_projects := bt_projects bt; bt_map := bt_map bt; bt_branch := bt_branch bt;
                   bt_phase := bt_phase bt; bt_reads := bt_reads bt ++ [(k, v)];
                   bt_log := bt_log bt |} in
    if negb v then
      mk_runtime (rt_ui rs) (rt_quit rs) (<[i := read]> (rt_batches rs)) (rt_inbox rs) (rt_world rs)
    else
      match project_at (bt_projects bt) k with
      | None =>
          mk_runtime (rt_ui rs) true (<[i := set_bt_phase (Finished None) bt]> (rt_batches rs))
                     (rt_inbox rs) (rt_world rs)
      | Some pr =>
          let '(r, (w', log')) :=
            switchBranch run (path pr) (bt_branch bt) (rt_world rs, bt_log bt) in
          let bt' := {| bt_projects := bt_projects bt; bt_map := bt_map bt;
                        bt_branch := bt_branch bt;
                        bt_phase := match r with
                                    | Some e => Finished (Some (MsgError e))
                                    | None => bt_phase bt
                                    end;
                        bt_reads := bt_reads bt ++ [(k, true)]; bt_log := log' |} in
          mk_runtime (rt_ui rs) (rt_quit rs) (<[i := bt']> (rt_batches rs))
                     (rt_inbox rs ++ match r with Some e => [MsgError e] | None => [] end) w'
      end
  end.

(** Batch [i]'s loop ends: [return msg{Type: msgProcessComplete}]. *)
Definition done_step {W} (rs : runtime W) (i : nat) : runtime W :=
  match rt_batches rs !! i with
  | Some bt =>
      mk_runtime (rt_ui rs) (rt_quit rs)
                 (<[i := set_bt_phase (Finished (Some MsgProcessComplete)) bt]> (rt_batches rs))
                 (rt_inbox rs ++ [MsgProcessComplete]) (rt_world rs)
  | None => rs
  end.

(** One step of the running program; nothing happens after it quit.
    The loop may reach the keys in any order (Go leaves it open), each
    at most once; a key added during the loop may or may not be
    reached; the loop ends once every key it started with is reached. *)
Inductive rt_step {W} (run : runner W) : runtime W -> runtime W -> Prop :=
  | RtKey rs key :
      rt_quit rs = false -> rt_step run rs (key_step rs key)
  | RtDeliver rs x inbox :
      rt_quit rs = false -> rt_inbox rs = x :: inbox -> rt_step run rs (deliver_step rs)
  | RtTick rs i bt ks :
      rt_quit rs = false -> rt_batches rs !! i = Some bt -> bt_phase bt = Ticking ->
      ks ≡ₚ (map_to_list (map_of (rt_ui rs) (bt_map bt))).*1 ->
      rt_step run rs (tick_step rs i ks)
  | RtVisit rs i bt start k v :
      rt_quit rs = false -> rt_batches rs !! i = Some bt -> bt_phase bt = Iterating start ->
      map_of (rt_ui rs) (bt_map bt) !! k = Some v -> ~ In k (map fst (bt_reads bt)) ->
      rt_step run rs (visit_step run rs i k)
  | RtDone rs i bt start :
      rt_quit rs = false -> rt_batches rs !! i = Some bt -> bt_phase bt = Iterating start ->
      (forall k, In k start -> In k (map fst (bt_reads bt))) ->
      rt_step run rs (done_step rs i).

Inductive rt_steps {W} (run : runner W) : runtime W -> runtime W -> Prop :=
  | rt_refl rs : rt_steps run rs rs
  | rt_next rs1 rs2 rs3 : rt_step run rs1 rs2 -> rt_steps run rs2 rs3 -> rt_steps run rs1 rs3.

(** The repositories a batch ran, in the order its loop reached them:
    the keys read as [true] that name a project. *)
Fixpoint ran_projects (ps : list project) (reads : list (Z * bool)) : list project :=
  match reads with
  | [] => []
  | (k, true) :: reads' =>
      match project_at ps k with
      | Some pr => pr :: ran_projects ps reads'
      | None => ran_projects ps reads'
      end
  | (_, false) :: reads' => ran_projects ps reads'
  end.

Definition bt_ran (bt : batch) : list project := ran_projects (bt_projects bt) (bt_reads bt).

(** What every batch keeps when no command fails: it belongs to the
    program's projects, the keys of the map it reads are project
    indices, its log is the full sequence of each repository it ran, one
    after the other, and it can only have ended with
    [msgProcessComplete]. *)
Definition bt_inv (ps : list project) (m : model) (bt : batch) : Prop :=
  bt_projects bt = ps /\
  (forall k v, map_of m (bt_map bt) !! k = Some v -> (0 <= k < Z.of_nat (length ps))%Z) /\
  bt_log bt = concat (map (fun pr => ok_entries (path pr) (bt_branch bt)) (bt_ran bt)) /\
  (forall r, bt_phase bt = Finished r -> r = Some MsgProcessComplete).

Definition is_finished (bt : batch) : bool :=
  match bt_phase bt with Finished _ => true | _ => false end.

Definition is_complete (x : msg) : bool :=
  match x with MsgProcessComplete => true | _ => false end.

(** What the running program keeps when no command fails; the
    [msgProcessComplete] messages not yet delivered are at most one per
    finished batch. *)
Definition rt_inv {W} (ps : list project) (rs : runtime W) : Prop :=
  ui_inv ps (rt_ui rs) /\
  Forall (bt_inv ps (rt_ui rs)) (rt_batches rs) /\
  (length (List.filter is_complete (rt_inbox rs)) <=
   length (List.filter is_finished (rt_batches rs)))%nat.

(** Concrete runs of the program on [fs_mixed] (projects a = 0 and
    b = 1, both selected on "enter"), where no command fails.  After
    "enter", "enter" the batch for "switch to main" is running. *)
Definition ok_run : runner nat := failing_runner [].

Definition mixed_runtime : runtime nat := rt_init mixed_start 0.

Definition confirmed_runtime : runtime nat :=
  key_step (key_step mixed_runtime "enter") "enter".

(** The batch ticks, runs a, the user moves the cursor, the batch runs
    b and ends. *)
Definition sequential_run : runtime nat :=
  done_step
    (visit_step ok_run
       (key_step (visit_step ok_run (tick_step confirmed_runtime 0 [0%Z; 1%Z]) 0 0%Z) "down")
       0 1%Z)
    0.

(** After confirming, the user unselects a (space on row 0) before the
    tick; the batch reads the map the screen changed. *)
Definition toggled_run : runtime nat :=
  done_step
    (visit_step ok_run
       (visit_step ok_run (tick_step (key_step confirmed_runtime " ") 0 [0%Z; 1%Z]) 0 0%Z)
       0 1%Z)
    0.

(* ------------------------------------------------------------------ *)
(** ** Small checks of the executor *)

Example switchBranch_ok_example :
  fst (switchBranch (failing_runner []) "/r/a" "" (0, [])) = None.
Proof. reflexivity. Qed.

Example switchBranch_fetch_example :
  fst (switchBranch (failing_runner [(fetch_cmd "/r/a", "boom")]) "/r/a" "x" (0, []))
  = Some (Errorf fetch_prefix (ExitError 1 "boom")).
Proof. reflexivity. Qed.

(** Equation of one executed command. *)
Lemma run_cmd_eq {W} (run : runner W) c w log :
  run_cmd run c (w, log) = (fst (run c w), (snd (run c w), log ++ [(c, fst (run c w))])).
Proof. unfold run_cmd. destruct (run c w); reflexivity. Qed.

(* ------------------------------------------------------------------ *)
(** ** C2: the branch-switch executor *)

(** C2: for every repository path and (well-formed) operation, the
    commands [switchBranch] issues, with their results, are a run of the
    spec's fixed step table — stash (best-effort), fetch (aborting,
    stage Fetch), branch -D main (best-effort), checkout --track
    origin/main (Checkout), pull origin main (Pull) and, only for
    SwitchToMainAndBranch, checkout -b name (BranchCreate) — in order,
    nothing after an aborting failure and no other command (no rollback);
    the result is Success (nil) iff no aborting step failed, else the
    failure of the aborting step with its stage. *)
Theorem switchBranch_fixed_sequence {W} (run : runner W) (p : string)
    (op : operation_spec) (Hop : valid_op op) (w : W) (log : list log_entry) :
  let '(r, (w', log')) := switchBranch run p (op_branch op) (w, log) in
  exists ex o, log' = log ++ ex /\ Trace (spec_steps p op) ex o /\
               r = outcome_error o.
Proof.
  assert (Hb : negb (String.eqb (op_branch op) "") =
               match op with SwitchToMain => false | _ => true end).
  { destruct op as [|n]; [reflexivity|]; cbn in Hop |- *.
    by destruct (String.eqb_spec n ""). }
  unfold switchBranch, bind, ret, run_cmd. rewrite Hb. clear Hb Hop.
  repeat (match goal with
          | |- context [run ?c ?w] =>
              let E := fresh "E" in destruct (run c w) as [[?|] ?] eqn:E
          | |- context [match op with _ => _ end] => destruct op
          end; cbn -[stash_cmd fetch_cmd delete_main_cmd checkout_main_cmd
                      pull_cmd create_branch_cmd]);
  (eexists _, _; split; [rewrite <- !app_assoc; reflexivity|split;
    [repeat first [ apply Trace_done
                  | apply Trace_next; [first [by left | by right] |]
                  | apply Trace_abort ]
    | reflexivity]]).
Qed.


(* ------------------------------------------------------------------ *)
(** ** Lemmas on the executor and the batch loop *)

Ltac sb_simpl :=
  cbn -[stash_cmd fetch_cmd delete_main_cmd checkout_main_cmd pull_cmd
        create_branch_cmd].

(** When every command of a repository succeeds, [switchBranch] returns
    nil after issuing all of them. *)
Lemma switchBranch_all_ok {W} (run : runner W) p b w log :
  (forall c w, In c (branch_cmds p b) -> fst (run c w) = None) ->
  exists w', switchBranch run p b (w, log) = (None, (w', log ++ ok_entries p b)).
Proof.
  intros H. unfold ok_entries. unfold branch_cmds in *.
  destruct (String.eqb b "") eqn:Eb; unfold switchBranch, bind, ret, run_cmd;
    rewrite Eb; sb_simpl;
  repeat match goal with
  | |- context [run ?c ?w] =>
      let E := fresh "E" in let r := fresh "r" in
      destruct (run c w) as [r ?] eqn:E;
      assert (r = None) as ->
        by (specialize (H c w); rewrite E in H; apply H; sb_simpl; tauto);
      sb_simpl
  end;
  eexists; rewrite <- !app_assoc; reflexivity.
Qed.

(** When the fetch of [p] fails with [e] after its stash succeeded. *)
Lemma switchBranch_fetch_fails {W} (run : runner W) p b w log e :
  (forall w, fst (run (stash_cmd p) w) = None) ->
  (forall w, fst (run (fetch_cmd p) w) = Some e) ->
  exists w', switchBranch run p b (w, log) =
             (Some (Errorf fetch_prefix e),
              (w', log ++ [(stash_cmd p, None); (fetch_cmd p, Some e)])).
Proof.
  intros Hs Hf. unfold switchBranch, bind, ret, run_cmd.
  specialize (Hs w). destruct (run (stash_cmd p) w) as [r1 w1]; cbn in Hs; subst r1.
  specialize (Hf w1). destruct (run (fetch_cmd p) w1) as [r2 w2]; cbn in Hf; subst r2.
  eexists; rewrite <- app_assoc; reflexivity.
Qed.

(** With world-independent results, the outcome of [switchBranch] is
    [switch_result]. *)
Lemma switchBranch_result {W} (run : runner W) res p b w log :
  (forall c w, fst (run c w) = res c) ->
  fst (switchBranch run p b (w, log)) = switch_result res p b.
Proof.
  intros H. unfold switch_result, switchBranch, bind, ret, run_cmd, pure_runner.
  repeat match goal with
  | |- context [run ?c ?w] =>
      let E := fresh "E" in let r := fresh "r" in
      destruct (run c w) as [r ?] eqn:E;
      assert (r = res c) as -> by (specialize (H c w); rewrite E in H; exact H);
      sb_simpl
  end.
  destruct (res (fetch_cmd p)); sb_simpl; [reflexivity|].
  repeat match goal with
  | |- context [run ?c ?w] =>
      let E := fresh "E" in let r := fresh "r" in
      destruct (run c w) as [r ?] eqn:E;
      assert (r = res c) as -> by (specialize (H c w); rewrite E in H; exact H);
      sb_simpl
  end.
  destruct (res (checkout_main_cmd p)); sb_simpl; [reflexivity|].
  repeat match goal with
  | |- context [run ?c ?w] =>
      let E := fresh "E" in let r := fresh "r" in
      destruct (run c w) as [r ?] eqn:E;
      assert (r = res c) as -> by (specialize (H c w); rewrite E in H; exact H);
      sb_simpl
  end.
  destruct (res (pull_cmd p)); sb_simpl; [reflexivity|].
  destruct (negb (b =? "")); sb_simpl; [|reflexivity].
  repeat match goal with
  | |- context [run ?c ?w] =>
      let E := fresh "E" in let r := fresh "r" in
      destruct (run c w) as [r ?] eqn:E;
      assert (r = res c) as -> by (specialize (H c w); rewrite E in H; exact H);
      sb_simpl
  end.
  destruct (res (create_branch_cmd p b)); reflexivity.
Qed.

Lemma in_range_tail ps sel id ks :
  in_range ps sel (id :: ks) -> in_range ps sel ks.
Proof. intros H j Hj. apply H. by right. Qed.

(** The commands of one repository never name another repository. *)
Lemma branch_cmds_other_path q p b c :
  q <> p -> In c (branch_cmds q b) -> c <> fetch_cmd p.
Proof.
  intros Hqp Hin ->. unfold branch_cmds in Hin.
  destruct (b =? ""); cbn in Hin;
    repeat (destruct Hin as [Hin|Hin]; [injection Hin; intros; congruence|]);
    contradiction.
Qed.

(** When every command succeeds, the loop runs the selected
    repositories' full sequences one after another, in iteration order. *)
Lemma process_loop_all_ok {W} (run : runner W) ps sel b ks w log :
  (forall c w, fst (run c w) = None) ->
  in_range ps sel ks ->
  exists w', process_loop run ps sel b ks (w, log) =
    (Some MsgProcessComplete,
     (w', log ++ concat (map (fun pr => ok_entries (path pr) b) (selected_projects ps sel ks)))).
Proof.
  intros Hok. revert w log. induction ks as [|id ks IH]; intros w log Hr.
  - exists w. cbn. by rewrite app_nil_r.
  - cbn [process_loop selected_projects].
    destruct (sel !! id) as [[|]|] eqn:Hs.
    + destruct (project_at ps id) as [pr|] eqn:Hp.
      2:{ destruct (Hr id (or_introl eq_refl) Hs) as [? Hx]. congruence. }
      unfold bind.
      destruct (switchBranch_all_ok run (path pr) b w log) as [w1 ->];
        [intros; apply Hok|].
      destruct (IH w1 (log ++ ok_entries (path pr) b) (in_range_tail _ _ _ _ Hr))
        as [w2 ->].
      exists w2. cbn [map concat]. by rewrite app_assoc.
    + by apply IH, (in_range_tail _ _ id).
    + by apply IH, (in_range_tail _ _ id).
Qed.

(** With world-independent results, the loop's message is the first
    failure among the selected repositories taken in iteration order. *)
Lemma process_loop_first_failure {W} (run : runner W) res ps sel b ks w log :
  (forall c w, fst (run c w) = res c) ->
  in_range ps sel ks ->
  fst (process_loop run ps sel b ks (w, log)) =
  Some (first_error (map (fun pr => switch_result res (path pr) b)
                         (selected_projects ps sel ks))).
Proof.
  intros Hres. revert w log. induction ks as [|id ks IH]; intros w log Hr.
  - reflexivity.
  - cbn [process_loop selected_projects].
    destruct (sel !! id) as [[|]|] eqn:Hs.
    + destruct (project_at ps id) as [pr|] eqn:Hp.
      2:{ destruct (Hr id (or_introl eq_refl) Hs) as [? Hx]. congruence. }
      unfold bind.
      pose proof (switchBranch_result run res (path pr) b w log Hres) as Hsb.
      destruct (switchBranch run (path pr) b (w, log)) as [[e|] [w1 log1]].
      * cbn in Hsb |- *. by rewrite <- Hsb.
      * cbn in Hsb |- *. rewrite <- Hsb. cbn.
        exact (IH w1 log1 (in_range_tail _ _ _ _ Hr)).
    + exact (IH w log (in_range_tail _ _ _ _ Hr)).
    + exact (IH w log (in_range_tail _ _ _ _ Hr)).
Qed.

(* ------------------------------------------------------------------ *)
(** ** C1: a failing repository and the rest of the batch *)

(** C1 (counterexample): with repositories a and b both selected and
    visited in the (valid) iteration order [0; 1], a failing fetch of a
    ends the batch: the result is the single message carrying a's fetch
    error, and no command is ever run in b. *)
Lemma batch_fetch_failure_skips_rest :
  iteration_order sel_ab [0%Z; 1%Z] /\
  process_loop fetch_a_fails [repo_a; repo_b] sel_ab "" [0%Z; 1%Z] (0, []) =
  (Some (MsgError (Errorf fetch_prefix
     (ExitError 1 "fatal: 'origin' does not appear to be a git repository"))),
   (2, [(stash_cmd "/r/a", None);
        (fetch_cmd "/r/a",
         Some (ExitError 1 "fatal: 'origin' does not appear to be a git repository"))])).
Proof.
  split; [|reflexivity].
  unfold iteration_order. vm_compute. apply perm_swap.
Qed.

(** C1 (amended): if the fetch of one selected repository fails (and
    every other command succeeds), the batch stops at that repository: it
    returns one msgError with "failed to fetch: " and the fetch error; the
    selected repositories visited before it ran their full sequences, and
    no command runs for any repository visited after it. *)
Theorem process_loop_stops_at_fetch_failure {W} (run : runner W) ps sel b
    pre id post pr e w log :
  (forall w, fst (run (fetch_cmd (path pr)) w) = Some e) ->
  (forall c w, c <> fetch_cmd (path pr) -> fst (run c w) = None) ->
  sel !! id = Some true -> project_at ps id = Some pr ->
  in_range ps sel pre ->
  (forall q, In q (selected_projects ps sel pre) -> path q <> path pr) ->
  exists w', process_loop run ps sel b (pre ++ id :: post) (w, log) =
    (Some (MsgError (Errorf fetch_prefix e)),
     (w', log ++ concat (map (fun q => ok_entries (path q) b) (selected_projects ps sel pre))
              ++ [(stash_cmd (path pr), None); (fetch_cmd (path pr), Some e)])).
Proof.
  intros Hf Hok Hid Hpr. revert w log.
  induction pre as [|j pre IH]; intros w log Hr Hq.
  - cbn [app process_loop selected_projects map concat]. rewrite Hid, Hpr.
    unfold bind.
    destruct (switchBranch_fetch_fails run (path pr) b w log e) as [w1 ->];
      [intros; apply Hok; unfold stash_cmd, fetch_cmd, git; congruence|exact Hf|].
    by exists w1.
  - cbn [app process_loop selected_projects].
    destruct (sel !! j) as [[|]|] eqn:Hs.
    + destruct (project_at ps j) as [q|] eqn:Hp.
      2:{ destruct (Hr j (or_introl eq_refl) Hs) as [? Hx]. congruence. }
      cbn [selected_projects] in Hq. rewrite Hs, Hp in Hq.
      unfold bind.
      destruct (switchBranch_all_ok run (path q) b w log) as [w1 ->].
      { intros c w' Hc. apply Hok.
        apply (branch_cmds_other_path (path q) _ b); [apply Hq; by left|done]. }
      destruct (IH w1 (log ++ ok_entries (path q) b)) as [w2 ->].
      { exact (in_range_tail _ _ _ _ Hr). }
      { intros q' Hq'. apply Hq. by right. }
      exists w2. cbn [map concat]. by rewrite !app_assoc.
    + cbn [selected_projects] in Hq. rewrite Hs in Hq.
      apply IH; [exact (in_range_tail _ _ _ _ Hr)|exact Hq].
    + cbn [selected_projects] in Hq. rewrite Hs in Hq.
      apply IH; [exact (in_range_tail _ _ _ _ Hr)|exact Hq].
Qed.

(* ------------------------------------------------------------------ *)
(** ** C3: order of the batch result *)

(** C3 (counterexample): with the same selection and the same failures,
    the two valid iteration orders of the selection map give different
    results; in the order [1; 0] the message reports b's checkout
    failure although a, first in selection order, failed too. *)
Lemma batch_result_depends_on_map_order :
  iteration_order sel_ab [0%Z; 1%Z] /\ iteration_order sel_ab [1%Z; 0%Z] /\
  fst (process_loop both_fail [repo_a; repo_b] sel_ab "" [0%Z; 1%Z] (0, [])) =
    Some (MsgError (Errorf fetch_prefix
            (ExitError 1 "fatal: couldn't find remote ref main"))) /\
  fst (process_loop both_fail [repo_a; repo_b] sel_ab "" [1%Z; 0%Z] (0, [])) =
    Some (MsgError (Errorf checkout_prefix
            (ExitError 1 "error: pathspec 'origin/main' did not match"))).
Proof.
  unfold iteration_order. vm_compute.
  split; [apply perm_swap|split; [reflexivity|split; reflexivity]].
Qed.

(** C3 (amended): the batch produces no per-repository list; it visits
    the selected repositories in the selection map's iteration order and
    returns one message, the error of the first repository that fails in
    that order, or msgProcessComplete when none fails. *)
Theorem processProjects_first_failure_in_iteration_order {W} (run : runner W) res
    (m : model) b ks w log :
  (forall c w, fst (run c w) = res c) ->
  in_range (projects m) (selected m) ks ->
  fst (processProjects run m b ks (w, log)) =
  Some (first_error (map (fun pr => switch_result res (path pr) b)
                         (selected_projects (projects m) (selected m) ks))).
Proof. intros Hres Hr. exact (process_loop_first_failure run res _ _ b ks w log Hres Hr). Qed.

(* ------------------------------------------------------------------ *)
(** ** C4, C5, C6: the repository-selection screen *)

(** C4 (code bug): toggling the only repository off leaves the entry
    [0 := false] in the map; the selection is empty, yet confirming sets
    no error and moves on to the branch-name screen, because the guard
    counts map entries ([len(m.selected) == 0]). *)
Lemma confirm_with_nothing_selected_moves_on :
  mode unselected_one = modeSelectProjects /\
  selected unselected_one = {[ 0%Z := false ]} /\
  mode (fst (Update unselected_one (KeyMsg "enter"))) = modeEnterBranch /\
  error (fst (Update unselected_one (KeyMsg "enter"))) = "".
Proof. vm_compute. repeat split; reflexivity. Qed.

(** C5 (code bug): with the selection {a} out of {a, b} (entry
    [1 := false] kept in the map), toggle-all clears the selection instead
    of setting the full set, because [allSelected] compares the map's
    size with the number of projects. *)
Lemma toggle_all_clears_partial_selection :
  selected only_a_selected = {[ 0%Z := true; 1%Z := false ]} /\
  selected (fst (Update only_a_selected (KeyMsg "a"))) = ∅.
Proof. vm_compute. split; reflexivity. Qed.

(** C6 (counterexample): confirming the plain switch with a repository
    selected returns the batch command but leaves the mode at
    modeSelectProjects, and the batch's completion message leaves the
    model unchanged: no Processing, no results state. *)
Lemma confirm_plain_switch_keeps_mode :
  mode (fst (Update plain_switch_screen (KeyMsg "enter"))) = modeSelectProjects /\
  snd (Update plain_switch_screen (KeyMsg "enter")) =
    Some (ProcessProjects plain_switch_screen "") /\
  Update (fst (Update plain_switch_screen (KeyMsg "enter"))) (AppMsg MsgProcessComplete) =
    (fst (Update plain_switch_screen (KeyMsg "enter")), None).
Proof. vm_compute. repeat split; reflexivity. Qed.

(** C6 (amended): on the selection screen, confirming with a non-empty
    selection map and the plain switch action returns the batch command
    [processProjects] with an empty branch name and sets no error; when
    no command fails the batch reports completion through the single
    message msgProcessComplete. *)
Theorem confirm_plain_switch_issues_batch (m : model) :
  mode m = modeSelectProjects -> size (selected m) <> 0%nat -> action m <> 1%Z ->
  snd (Update m (KeyMsg "enter")) = Some (ProcessProjects m "") /\
  error (fst (Update m (KeyMsg "enter"))) = error m /\
  (forall W (run : runner W) ks (s : state W),
     (forall c w, fst (run c w) = None) ->
     in_range (projects m) (selected m) ks ->
     fst (processProjects run m "" ks s) = Some MsgProcessComplete).
Proof.
  intros Hmode Hsize Hact.
  assert (Hu : Update m (KeyMsg "enter") = (m, Some (ProcessProjects m ""))).
  { unfold Update. rewrite Hmode. unfold updateProjectSelect. cbn -[size].
    apply Nat.eqb_neq in Hsize. rewrite Hsize.
    apply Z.eqb_neq in Hact. by rewrite Hact. }
  rewrite Hu. split; [reflexivity|split; [reflexivity|]].
  intros W run ks [w log] Hok Hr.
  destruct (process_loop_all_ok run (projects m) (selected m) "" ks w log Hok Hr)
    as [w' Hl].
  unfold processProjects. by rewrite Hl.
Qed.

Lemma confirm_plain_switch_issues_batch_witness :
  (mode plain_switch_screen = modeSelectProjects /\
   size (selected plain_switch_screen) <> 0%nat /\ action plain_switch_screen <> 1%Z) /\
  snd (Update plain_switch_screen (KeyMsg "enter")) =
    Some (ProcessProjects plain_switch_screen "").
Proof.
  assert (H : mode plain_switch_screen = modeSelectProjects /\
              size (selected plain_switch_screen) <> 0%nat /\
              action plain_switch_screen <> 1%Z)
    by (vm_compute; repeat split; discriminate).
  split; [exact H|].
  destruct H as (H1 & H2 & H3).
  exact (proj1 (confirm_plain_switch_issues_batch plain_switch_screen H1 H2 H3)).
Defined.

(* ------------------------------------------------------------------ *)
(** ** Discovery *)

Lemma fold_add_project f parentDir dirs acc :
  fold_left (add_project f parentDir) dirs acc =
  acc ++ map (to_project parentDir) (List.filter (qualifies f parentDir) dirs).
Proof.
  revert acc. induction dirs as [|d dirs IH]; intros acc; cbn.
  - by rewrite app_nil_r.
  - rewrite IH. unfold add_project, qualifies.
    destruct (entry_is_dir d); cbn; [|reflexivity].
    destruct (stat f _) as [[|]|]; cbn; [by rewrite <- app_assoc|reflexivity..].
Qed.

Lemma ltb_false_neq a b :
  String.ltb a b = false -> a <> b -> String.ltb b a = true.
Proof.
  unfold String.ltb. rewrite (String.compare_antisym b a).
  destruct (String.compare a b) eqn:E; cbn; try done.
  intros _ Hne. apply String.compare_eq_iff in E. contradiction.
Qed.

Lemma insert_by_name_perm x l : insert_by_name x l ≡ₚ x :: l.
Proof.
  induction l as [|y l IH]; cbn; [done|].
  destruct (name_less x y); [done|]. rewrite IH. apply perm_swap.
Qed.

Lemma insert_by_name_hdrel y x l :
  HdRel name_lt y l -> name_lt y x -> HdRel name_lt y (insert_by_name x l).
Proof.
  intros Hh Hyx. destruct l as [|z l]; cbn; [by constructor|].
  destruct (name_less x z); constructor; [done|]. by inversion Hh.
Qed.

Lemma insert_by_name_sorted x l :
  Sorted name_lt l -> ~ In (name x) (map name l) -> Sorted name_lt (insert_by_name x l).
Proof.
  induction l as [|y l IH]; intros Hs Hn; cbn; [by repeat constructor|].
  destruct (name_less x y) eqn:E.
  - constructor; [done|]. by constructor.
  - inversion Hs as [|? ? Hs' Hh]; subst.
    constructor.
    + apply IH; [done|]. intros Hin. apply Hn. by right.
    + apply insert_by_name_hdrel; [done|].
      unfold name_lt, name_less. apply ltb_false_neq; [exact E|].
      intros Heq. apply Hn. left. by rewrite Heq.
Qed.

Lemma sort_by_name_spec l acc :
  Sorted name_lt acc -> List.NoDup (map name (acc ++ l)) ->
  Sorted name_lt (fold_left (fun acc x => insert_by_name x acc) l acc) /\
  fold_left (fun acc x => insert_by_name x acc) l acc ≡ₚ acc ++ l.
Proof.
  revert acc. induction l as [|x l IH]; intros acc Hs Hnd; cbn.
  - by rewrite app_nil_r.
  - assert (Hx : ~ In (name x) (map name acc)).
    { rewrite map_app in Hnd. cbn in Hnd.
      apply NoDup_remove_2 in Hnd. intros Hin. apply Hnd. apply in_or_app. by left. }
    destruct (IH (insert_by_name x acc)) as [IH1 IH2].
    + by apply insert_by_name_sorted.
    + refine (Permutation_NoDup _ Hnd). apply Permutation_map.
      rewrite insert_by_name_perm. cbn. symmetry. apply Permutation_middle.
    + split; [exact IH1|]. rewrite IH2, insert_by_name_perm. apply Permutation_middle.
Qed.

Lemma NoDup_map_filter {A B} (g : A -> B) (q : A -> bool) l :
  List.NoDup (map g l) -> List.NoDup (map g (List.filter q l)).
Proof.
  induction l as [|a l IH]; intros Hnd; cbn; [constructor|].
  inversion Hnd as [|? ? Hn Hnd']; subst.
  destruct (q a); cbn; [|by apply IH].
  constructor; [|by apply IH].
  intros Hin. apply Hn. apply in_map_iff in Hin as (a' & Ha' & Hin').
  apply filter_In in Hin' as [Hin' _]. rewrite <- Ha'. by apply in_map.
Qed.

(* ------------------------------------------------------------------ *)
(** ** C8: unreadable parent directory *)

(** C8 (counterexample): an unreadable parent directory produces no
    error value: discovery returns the empty sequence and [main] behaves
    exactly as for a readable directory without repositories. *)
Lemma unreadable_parent_same_as_empty :
  findProjects fs_unreadable = [] /\
  main fs_unreadable = main fs_empty /\
  main fs_empty = ExitWith 1 no_repos_message.
Proof. vm_compute. repeat split. Qed.

(** C8 (amended): when nothing can be read from the parent directory
    (whatever the read error, or none), discovery returns the empty
    sequence, and startup aborts with exit status 1 and the message
    "No Git repositories found in parent directory". *)
Theorem findProjects_unreadable_is_empty (f : fs) :
  fst (read_dir f (parent_dir f)) = [] ->
  findProjects f = [] /\ main f = ExitWith 1 no_repos_message.
Proof.
  intros H. assert (Hf : findProjects f = []).
  { unfold findProjects. by rewrite H. }
  split; [exact Hf|]. unfold main. by rewrite Hf.
Qed.

Lemma findProjects_unreadable_is_empty_witness :
  fst (read_dir fs_unreadable (parent_dir fs_unreadable)) = [] /\
  main fs_unreadable = ExitWith 1 no_repos_message.
Proof.
  assert (H : fst (read_dir fs_unreadable (parent_dir fs_unreadable)) = [])
    by reflexivity.
  split; [exact H|]. exact (proj2 (findProjects_unreadable_is_empty fs_unreadable H)).
Defined.

(* ------------------------------------------------------------------ *)
(** ** C9: discovery *)

Example findProjects_mixed :
  findProjects fs_mixed =
  [{| name := "a"; path := "/r/a" |}; {| name := "b"; path := "/r/b" |}].
Proof. reflexivity. Qed.

(** C9: when the entries of the parent directory have distinct names,
    discovery returns one descriptor per child that is a directory and
    holds a [.git] directory — named after it, with path parent/name — and
    none for any other entry, sorted by name in strictly ascending
    byte-wise order. *)
Theorem findProjects_spec (f : fs) :
  List.NoDup (map entry_name (fst (read_dir f (parent_dir f)))) ->
  findProjects f ≡ₚ
    map (to_project (parent_dir f))
        (List.filter (qualifies f (parent_dir f)) (fst (read_dir f (parent_dir f)))) /\
  Sorted name_lt (findProjects f).
Proof.
  intros Hnd. unfold findProjects, sort_by_name. rewrite fold_add_project. cbn [app].
  destruct (sort_by_name_spec
              (map (to_project (parent_dir f))
                   (List.filter (qualifies f (parent_dir f)) (fst (read_dir f (parent_dir f)))))
              []) as [Hs Hp].
  - constructor.
  - cbn [app]. rewrite map_map. cbn. by apply NoDup_map_filter.
  - split; [exact Hp|exact Hs].
Qed.

Lemma findProjects_spec_witness :
  List.NoDup (map entry_name (fst (read_dir fs_mixed (parent_dir fs_mixed)))) /\
  Sorted name_lt (findProjects fs_mixed).
Proof.
  assert (H : List.NoDup (map entry_name (fst (read_dir fs_mixed (parent_dir fs_mixed)))))
    by (vm_compute; repeat constructor; cbn; intuition discriminate).
  split; [exact H|]. exact (proj2 (findProjects_spec fs_mixed H)).
Defined.

(* ------------------------------------------------------------------ *)
(** ** C10: failure messages *)

(** C10 (counterexample): two fetch failures with different diagnostics
    on stderr but the same exit status give the same message. *)
Lemma fetch_messages_hide_stderr :
  option_map go_error_text
    (fst (switchBranch (failing_runner
            [(fetch_cmd "/r/a", "fatal: 'origin' does not appear to be a git repository")])
          "/r/a" "" (0, []))) =
  Some "failed to fetch: exit status 1" /\
  option_map go_error_text
    (fst (switchBranch (failing_runner
            [(fetch_cmd "/r/a", "fatal: unable to access: Could not resolve host")])
          "/r/a" "" (0, []))) =
  Some "failed to fetch: exit status 1".
Proof. split; reflexivity. Qed.

(** A failing [switchBranch] stops right after the failing command: the
    last entry of its log is that command with the error its [Run()]
    returned, and the error wraps that very error under the prefix of
    the command's stage. *)
Lemma switchBranch_failure_log {W} (run : runner W) p b w log e w' log' :
  switchBranch run p b (w, log) = (Some e, (w', log')) ->
  exists st cause ex,
    log' = log ++ ex ++ [(stage_cmd p b st, Some cause)] /\
    e = Errorf (stage_prefix st) cause.
Proof.
  unfold switchBranch, bind, ret, run_cmd.
  repeat (match goal with
          | |- context [run ?c ?w] =>
              let E := fresh "E" in destruct (run c w) as [[?|] ?] eqn:E
          | |- context [negb (?x =? ?y)] => destruct (negb (x =? y))
          end; sb_simpl);
  intros Heq; try discriminate Heq; injection Heq as <- _ <-;
  match goal with
  | |- exists st cause ex, _ /\ Errorf fetch_prefix ?c = _ => exists Fetch, c
  | |- exists st cause ex, _ /\ Errorf checkout_prefix ?c = _ => exists Checkout, c
  | |- exists st cause ex, _ /\ Errorf pull_prefix ?c = _ => exists Pull, c
  | |- exists st cause ex, _ /\ Errorf branch_prefix ?c = _ => exists BranchCreate, c
  end;
  (eexists; split; [rewrite app_assoc; f_equal; rewrite <- ?app_assoc; reflexivity|reflexivity]).
Qed.

Lemma stage_cmd_inj p b st st' : stage_cmd p b st = stage_cmd p b st' -> st = st'.
Proof.
  unfold stage_cmd, fetch_cmd, checkout_main_cmd, pull_cmd, create_branch_cmd, git.
  destruct st, st'; intros H; congruence.
Qed.

(** C10 (amended): when [switchBranch] fails, its last command is the
    command of some stage, issued with the error [e0] its [Run()]
    returned, and the failure is that stage's prefix ("failed to fetch:
    ", "failed to checkout main: ", "failed to pull: ", "failed to create
    branch: ") followed by the Go text of [e0]; for a non-zero exit that
    text is "exit status N", so the command's stderr is not in the
    message, and any run of [switchBranch] on the same repository whose
    same stage's command exits with the same status, whatever its
    stderr, fails with the same message. *)
Theorem switchBranch_error_message {W} (run : runner W) p b w log e w' log' :
  switchBranch run p b (w, log) = (Some e, (w', log')) ->
  exists st cause ex,
    log' = log ++ ex ++ [(stage_cmd p b st, Some cause)] /\
    e = Errorf (stage_prefix st) cause /\
    go_error_text e = stage_prefix st +:+ exec_error_text cause /\
    (forall code stderr, cause = ExitError code stderr ->
       go_error_text e = stage_prefix st +:+ "exit status " +:+ pretty code /\
       forall (run2 : runner W) w2 log2 e2 w2' log2' ex2 stderr2,
         switchBranch run2 p b (w2, log2) = (Some e2, (w2', log2')) ->
         log2' = log2 ++ ex2 ++ [(stage_cmd p b st, Some (ExitError code stderr2))] ->
         go_error_text e2 = go_error_text e).
Proof.
  intros H.
  destruct (switchBranch_failure_log run p b w log e w' log' H) as (st & cause & ex & Hlog & He).
  exists st, cause, ex. split; [exact Hlog|]. split; [exact He|].
  split; [subst e; reflexivity|].
  intros code stderr Hc. subst e cause. split; [reflexivity|].
  intros run2 w2 log2 e2 w2' log2' ex2 stderr2 H2 Hlog2.
  destruct (switchBranch_failure_log run2 p b w2 log2 e2 w2' log2' H2)
    as (st2 & cause2 & ex2' & Hlog2' & He2).
  rewrite Hlog2 in Hlog2'. rewrite !app_assoc in Hlog2'.
  apply app_inj_tail in Hlog2' as [_ Hlast].
  injection Hlast as Hst Hc2. apply stage_cmd_inj in Hst. subst st2 cause2 e2.
  reflexivity.
Qed.

Lemma switchBranch_error_message_witness :
  go_error_text (Errorf fetch_prefix
    (ExitError 1 "fatal: unable to access: Could not resolve host")) =
  go_error_text (Errorf fetch_prefix
    (ExitError 1 "fatal: 'origin' does not appear to be a git repository")) /\
  go_error_text (Errorf fetch_prefix
    (ExitError 1 "fatal: 'origin' does not appear to be a git repository")) =
    "failed to fetch: exit status 1".
Proof.
  assert (H : switchBranch fetch_a_fails "/r/a" "" (0, []) =
              (Some (Errorf fetch_prefix
                 (ExitError 1 "fatal: 'origin' does not appear to be a git repository")),
               (2, [(stash_cmd "/r/a", None);
                    (fetch_cmd "/r/a",
                     Some (ExitError 1 "fatal: 'origin' does not appear to be a git repository"))])))
    by reflexivity.
  assert (H2 : switchBranch
                 (failing_runner [(fetch_cmd "/r/a", "fatal: unable to access: Could not resolve host")])
                 "/r/a" "" (0, []) =
              (Some (Errorf fetch_prefix
                 (ExitError 1 "fatal: unable to access: Could not resolve host")),
               (2, [(stash_cmd "/r/a", None);
                    (fetch_cmd "/r/a",
                     Some (ExitError 1 "fatal: unable to access: Could not resolve host"))])))
    by reflexivity.
  destruct (switchBranch_error_message fetch_a_fails "/r/a" "" 0 [] _ _ _ H)
    as (st & cause & ex & Hlog & He & Htext & Hexit).
  change ([(stash_cmd "/r/a", None);
           (fetch_cmd "/r/a",
            Some (ExitError 1 "fatal: 'origin' does not appear to be a git repository"))])
    with ([(stash_cmd "/r/a", None)] ++
          [(fetch_cmd "/r/a",
            Some (ExitError 1 "fatal: 'origin' does not appear to be a git repository"))]) in Hlog.
  apply app_inj_tail in Hlog as [_ Hlast]. injection Hlast as Hst Hc.
  destruct st; try (vm_compute in Hst; discriminate Hst).
  subst cause.
  destruct (Hexit 1%Z _ eq_refl) as [Hmsg Hsame].
  split.
  - exact (Hsame _ 0 [] _ 2 _ [(stash_cmd "/r/a", None)] _ H2 eq_refl).
  - rewrite Hmsg. reflexivity.
Defined.

(* ------------------------------------------------------------------ *)
(** ** Witnesses *)

Lemma switchBranch_fixed_sequence_witness :
  valid_op (SwitchToMainAndBranch "feature/x") /\
  let '(r, (w', log')) :=
    switchBranch fetch_a_fails "/r/a" (op_branch (SwitchToMainAndBranch "feature/x")) (0, []) in
  exists ex o, log' = [] ++ ex /\ Trace (spec_steps "/r/a" (SwitchToMainAndBranch "feature/x")) ex o /\
               r = outcome_error o.
Proof.
  assert (H : valid_op (SwitchToMainAndBranch "feature/x")) by (cbn; discriminate).
  split; [exact H|].
  exact (switchBranch_fixed_sequence fetch_a_fails "/r/a" _ H 0 []).
Defined.

Lemma process_loop_stops_at_fetch_failure_witness :
  exists w', process_loop fetch_a_fails [repo_a; repo_b] sel_ab "" ([] ++ 0%Z :: [1%Z]) (0, []) =
    (Some (MsgError (Errorf fetch_prefix
       (ExitError 1 "fatal: 'origin' does not appear to be a git repository"))),
     (w', [] ++ concat (map (fun q => ok_entries (path q) "")
                             (selected_projects [repo_a; repo_b] sel_ab []))
             ++ [(stash_cmd (path repo_a), None);
                 (fetch_cmd (path repo_a),
                  Some (ExitError 1 "fatal: 'origin' does not appear to be a git repository"))])).
Proof.
  apply (process_loop_stops_at_fetch_failure fetch_a_fails [repo_a; repo_b] sel_ab ""
           [] 0%Z [1%Z] repo_a).
  - intros w. reflexivity.
  - intros c w Hc. unfold fetch_a_fails, failing_runner. cbn.
    case_decide as Hd; [subst c; exfalso; apply Hc; reflexivity|reflexivity].
  - reflexivity.
  - reflexivity.
  - intros id [].
  - intros q [].
Defined.

Lemma processProjects_first_failure_in_iteration_order_witness :
  fst (processProjects both_fail both_selected_screen "" [1%Z; 0%Z] (0, [])) =
  Some (first_error (map (fun pr => switch_result (fun c => fst (both_fail c 0)) (path pr) "")
                         (selected_projects (projects both_selected_screen)
                                            (selected both_selected_screen) [1%Z; 0%Z]))).
Proof.
  apply processProjects_first_failure_in_iteration_order.
  - intros c w. unfold both_fail, failing_runner.
    destruct (list_find _ _) as [[? [? ?]]|]; reflexivity.
  - intros id Hin Hs. destruct Hin as [<-|[<-|[]]]; vm_compute; eexists; reflexivity.
Defined.

(* ------------------------------------------------------------------ *)
(** ** Further properties of the selection screens *)

(** [select_all]'s loop inserts [true] at [j], ..., [j + n - 1]. *)
Lemma select_all_from_lookup j n (s : gmap Z bool) k :
  foldl (fun acc i => <[Z.of_nat i := true]> acc) s (seq j n) !! k =
  if bool_decide (Z.of_nat j <= k < Z.of_nat (j + n))%Z then Some true else s !! k.
Proof.
  revert j s. induction n as [|n IH]; intros j s; cbn [seq foldl].
  - rewrite bool_decide_false; [done|lia].
  - rewrite IH. rewrite lookup_insert.
    destruct (decide (Z.of_nat j = k)); repeat case_bool_decide; try done; lia.
Qed.

Lemma select_all_lookup n (s : gmap Z bool) k :
  select_all n s !! k = if bool_decide (0 <= k < Z.of_nat n)%Z then Some true else s !! k.
Proof. unfold select_all. by rewrite select_all_from_lookup. Qed.

Lemma update_action_enter m :
  updateActionSelect m "enter" =
  (set_selected (select_all (length (projects m)) (selected m))
     (set_cursor 0 (set_mode modeSelectProjects (set_action (cursor m) m))), None).
Proof. reflexivity. Qed.

Lemma update_projects_space m :
  updateProjectSelect m " " =
  (set_selected (<[cursor m := negb (sel_get (selected m) (cursor m))]> (selected m)) m,
   None).
Proof. reflexivity. Qed.

Lemma update_projects_all m :
  updateProjectSelect m "a" =
  (set_selected (if Nat.eqb (size (selected m)) (length (projects m)) then ∅
                 else select_all (length (projects m)) ∅) m, None).
Proof. reflexivity. Qed.

(** Confirming the action: the action is the cursor's row, the screen
    becomes the repository selection with the cursor on the first row,
    and every project index is marked selected; other keys of the map keep
    their values. *)
Theorem confirm_action_selects_all (m : model) :
  mode m = modeSelectAction ->
  let '(m', c) := Update m (KeyMsg "enter") in
  c = None /\ mode m' = modeSelectProjects /\ cursor m' = 0%Z /\
  action m' = cursor m /\
  (forall k, selected m' !! k =
     if bool_decide (0 <= k < Z.of_nat (length (projects m)))%Z then Some true
     else selected m !! k).
Proof.
  intros Hm. unfold Update. rewrite Hm, update_action_enter. cbn.
  repeat split. intros k. apply select_all_lookup.
Qed.

(** Toggling one repository flips the value read at the cursor and
    leaves every other key alone; the key stays in the map (turned
    [false] rather than deleted), so the map's size never shrinks. *)
Theorem toggle_one_flips_cursor (m : model) :
  mode m = modeSelectProjects ->
  let '(m', c) := Update m (KeyMsg " ") in
  c = None /\
  sel_get (selected m') (cursor m) = negb (sel_get (selected m) (cursor m)) /\
  (forall k, k <> cursor m -> selected m' !! k = selected m !! k) /\
  is_Some (selected m' !! cursor m) /\
  (size (selected m) <= size (selected m'))%nat.
Proof.
  intros Hm. unfold Update. rewrite Hm, update_projects_space. cbn [selected set_selected].
  split; [done|]. split; [unfold sel_get; by rewrite lookup_insert_eq|].
  split; [intros k Hk; by rewrite lookup_insert_ne|].
  split; [rewrite lookup_insert_eq; by eexists|].
  rewrite map_size_insert. destruct (selected m !! cursor m); cbn; lia.
Qed.

(** Toggle-all empties the map when its size equals the number of
    projects, and otherwise replaces it by exactly the project indices,
    all mapped to [true]. *)
Theorem toggle_all_result (m : model) :
  mode m = modeSelectProjects ->
  let '(m', c) := Update m (KeyMsg "a") in
  c = None /\
  ((size (selected m) = length (projects m) /\ selected m' = ∅) \/
   (size (selected m) <> length (projects m) /\
    forall k, selected m' !! k =
      if bool_decide (0 <= k < Z.of_nat (length (projects m)))%Z then Some true else None)).
Proof.
  intros Hm. unfold Update. rewrite Hm, update_projects_all. cbn [selected set_selected].
  split; [done|].
  destruct (Nat.eqb_spec (size (selected m)) (length (projects m))) as [E|E].
  - by left.
  - right. split; [done|]. intros k. rewrite select_all_lookup. by rewrite lookup_empty.
Qed.

(* ------------------------------------------------------------------ *)
(** ** Reachable states *)

Ltac split_ifs :=
  repeat match goal with
  | |- context [if ?b then _ else _] => let E := fresh "E" in destruct b eqn:E
  end.

Ltac model_simpl :=
  cbn [fst snd projects selected cursor mode action branchName error processing
       set_cursor set_selected set_mode set_action set_branchName set_error] in *.

Lemma ui_inv_update ps m key :
  ps <> [] -> ui_inv ps m -> ui_inv ps (fst (Update m (KeyMsg key))).
Proof.
  intros Hne (Hp & Hsel & Hact & Hproc & Hcur).
  assert (Hlen : (0 < length ps)%nat) by (destruct ps; [done|cbn; lia]).
  subst ps. unfold Update.
  destruct (mode m) eqn:Hm; rewrite ?Hm in Hcur;
    [unfold updateActionSelect|unfold updateProjectSelect|unfold updateBranchInput|
     contradiction];
    split_ifs; unfold ui_inv; model_simpl; rewrite ?Hm;
    repeat match goal with
    | H : _ /\ _ |- _ => destruct H
    | H : (_ <? _)%Z = true |- _ => apply Z.ltb_lt in H
    | H : (_ <? _)%Z = false |- _ => apply Z.ltb_ge in H
    | H : (_ =? _)%Z = true |- _ => apply Z.eqb_eq in H
    | H : Nat.eqb _ _ = false |- _ => apply Nat.eqb_neq in H
    end;
    (split; [done|split; [|split; [lia|split; [done|repeat split; try done; try lia]]]]).
  all: try exact Hsel.
  all: try (intros k b Hk; rewrite ?lookup_empty in Hk; discriminate).
  all: try (intros k b Hk; rewrite select_all_lookup in Hk; case_bool_decide;
            [lia|by eauto]).
  all: try (intros k b Hk; rewrite select_all_lookup in Hk;
            case_bool_decide; [lia|by rewrite lookup_empty in Hk]).
  all: try (intros k b Hk; rewrite lookup_insert in Hk; case_decide;
            [subst k; lia|by eauto]).
Qed.

(** The batch command closes over the model as it is when enter is
    pressed, leaves the model unchanged, and comes from one of the two
    confirm branches. *)
Lemma update_batch_cmd m key m' m0 b :
  Update m (KeyMsg key) = (m', Some (ProcessProjects m0 b)) ->
  m0 = m /\ m' = m /\ key = "enter" /\
  ((mode m = modeSelectProjects /\ size (selected m) <> 0%nat /\ action m <> 1%Z /\ b = "") \/
   (mode m = modeEnterBranch /\ b = branchName m /\ b <> "")).
Proof.
  unfold Update. destruct (mode m) eqn:Hm;
    [unfold updateActionSelect|unfold updateProjectSelect|unfold updateBranchInput|];
    split_ifs; intros H; try discriminate; injection H as H1 H2 H3; subst;
    repeat match goal with
    | H : String.eqb _ _ = true |- _ => apply String.eqb_eq in H
    | H : String.eqb _ _ = false |- _ => apply String.eqb_neq in H
    | H : (_ =? _)%Z = false |- _ => apply Z.eqb_neq in H
    | H : Nat.eqb _ _ = false |- _ => apply Nat.eqb_neq in H
    end; subst; (split; [done|split; [done|split; [done|]]]); [left|right]; done.
Qed.

(** Feeding keys preserves a property [P] of the models and a property
    [Q] of the batch commands issued, when one step does. *)
Lemma run_keys_preserves (P : model -> Prop) (Q : model -> string -> Prop) m keys c :
  (forall m key, P m -> P (fst (Update m (KeyMsg key)))) ->
  (forall m key m' m0 b, P m -> Update m (KeyMsg key) = (m', Some (ProcessProjects m0 b)) ->
                         Q m0 b) ->
  P m -> (forall m0 b, c = Some (ProcessProjects m0 b) -> Q m0 b) ->
  P (fst (run_keys m keys c)) /\
  (forall m0 b, snd (run_keys m keys c) = Some (ProcessProjects m0 b) -> Q m0 b).
Proof.
  intros Hstep Hcmd. revert m c.
  induction keys as [|k ks IH]; intros m c Hm Hc; cbn [run_keys].
  - split; [done|]. exact Hc.
  - destruct (Update m (KeyMsg k)) as [m' c'] eqn:E. apply IH.
    + pose proof (Hstep m k Hm) as H. rewrite E in H. exact H.
    + intros m0 b ->. exact (Hcmd m k m' m0 b Hm E).
Qed.

(** [main] starts the TUI only from the initial model of a non-empty
    discovery. *)
Lemma main_run f m :
  main f = RunProgram m -> m = initialModel (findProjects f) /\ findProjects f <> [].
Proof.
  unfold main. destruct (Nat.eqb_spec (length (findProjects f)) 0) as [E|E];
    intros H; [discriminate|]. injection H as <-. split; [done|].
  intros Hn. apply E. by rewrite Hn.
Qed.

Lemma ui_inv_initial ps : ui_inv ps (initialModel ps).
Proof.
  unfold ui_inv, initialModel; cbn. split; [done|].
  split; [intros k b Hk; by rewrite lookup_empty in Hk|]. repeat split; lia.
Qed.

(** Every model reached from [main]'s initial model, and the model every
    batch command closes over, satisfy [ui_inv]. *)
Lemma run_keys_ui_inv f m keys :
  main f = RunProgram m ->
  ui_inv (findProjects f) (fst (run_keys m keys None)) /\
  (forall m0 b, snd (run_keys m keys None) = Some (ProcessProjects m0 b) ->
                ui_inv (findProjects f) m0 /\ fst (Update m0 (KeyMsg "enter")) = m0 /\
                ((mode m0 = modeSelectProjects /\ size (selected m0) <> 0%nat /\
                  action m0 <> 1%Z /\ b = "") \/
                 (mode m0 = modeEnterBranch /\ b = branchName m0 /\ b <> ""))).
Proof.
  intros H. destruct (main_run _ _ H) as [-> Hne].
  apply run_keys_preserves.
  - intros m' key. by apply ui_inv_update.
  - intros m1 key m' m0 b Hm1 Hu.
    destruct (update_batch_cmd _ _ _ _ _ Hu) as (-> & -> & -> & Hb).
    rewrite Hu. by split.
  - apply ui_inv_initial.
  - intros; discriminate.
Qed.

(** [m.projects[id]] does not panic for an index in range. *)
Lemma project_at_in_range ps id :
  (0 <= id < Z.of_nat (length ps))%Z -> is_Some (project_at ps id).
Proof.
  intros H. unfold project_at. rewrite (proj2 (Z.ltb_ge id 0)) by lia.
  apply lookup_lt_is_Some_2. lia.
Qed.

(** The loop never panics when every key mapped to [true] names a
    project. *)
Lemma process_loop_no_panic {W} (run : runner W) ps sel b ks s :
  (forall id, sel !! id = Some true -> is_Some (project_at ps id)) ->
  fst (process_loop run ps sel b ks s) <> None.
Proof.
  intros Hr. revert s. induction ks as [|id ks IH]; intros s; cbn [process_loop].
  - unfold ret. cbn. discriminate.
  - destruct (sel !! id) as [[|]|] eqn:Hs; try apply IH.
    destruct (project_at ps id) as [pr|] eqn:Hp;
      [|destruct (Hr id Hs) as [? Hx]; congruence].
    unfold bind. destruct (switchBranch run (path pr) b s) as [[e|] s'];
      [unfold ret; cbn; discriminate|apply IH].
Qed.

(** The characters of a concatenation. *)
Lemma list_ascii_of_string_app s t :
  String.list_ascii_of_string (s +:+ t) =
  String.list_ascii_of_string s ++ String.list_ascii_of_string t.
Proof. induction s as [|a s IH]; simpl; [done|by rewrite IH]. Qed.

Lemma substring_chars c n k s :
  In c (String.list_ascii_of_string (String.substring n k s)) ->
  In c (String.list_ascii_of_string s).
Proof.
  revert n k. induction s as [|a s IH]; intros n k; destruct n, k; cbn; try tauto.
  - intros [->|H]; [by left|right]. by apply (IH 0%nat k).
  - intros H. right. by apply (IH n 0%nat).
  - intros H. right. by apply (IH n (S k)).
Qed.

Lemma no_q_update m key :
  no_q (branchName m) -> no_q (branchName (fst (Update m (KeyMsg key)))).
Proof.
  intros Hq. unfold Update. destruct (mode m) eqn:Hm;
    [unfold updateActionSelect|unfold updateProjectSelect|unfold updateBranchInput|];
    split_ifs; model_simpl; try exact Hq.
  - intros [].
  - intros Hin. apply Hq. unfold drop_last in Hin. by apply substring_chars in Hin.
  - unfold no_q. rewrite list_ascii_of_string_app. intros Hin.
    apply in_app_or in Hin as [Hin|Hin]; [by apply Hq|].
    apply orb_false_iff in E as [E _]. apply String.eqb_neq in E.
    destruct key as [|a [|]]; cbn in *; try discriminate.
    destruct Hin as [Ha|[]]. subst a. by apply E.
Qed.

(** [len(s)-1] bytes of [s + k], for a one-byte [k], are [s]. *)
Lemma drop_last_append s a :
  drop_last (s +:+ String a "") = s.
Proof.
  unfold drop_last.
  assert (Hl : forall t, String.length (t +:+ String a "") = S (String.length t))
    by (induction t as [|b t IH]; simpl; [done|by rewrite IH]).
  rewrite Hl. cbn [Nat.sub]. rewrite Nat.sub_0_r.
  induction s as [|b s IH]; simpl; [done|by rewrite IH].
Qed.

(** Strings of different lengths differ. *)
Lemma eqb_length_false s t :
  String.length s <> String.length t -> (s =? t) = false.
Proof. intros H. apply String.eqb_neq. by intros ->. Qed.

Lemma set_branchName_same m : set_branchName (branchName m) m = m.
Proof. by destruct m. Qed.

(** Every command [switchBranch] issues is a [git -C p] command, and it
    only appends to the log. *)
Lemma switchBranch_log_git {W} (run : runner W) p b w log r w' log' :
  switchBranch run p b (w, log) = (r, (w', log')) ->
  exists ex, log' = log ++ ex /\ Forall (fun e => exists args, e.1 = git p args) ex.
Proof.
  unfold switchBranch, bind, ret, run_cmd.
  repeat (match goal with
          | |- context [run ?c ?w] =>
              let E := fresh "E" in destruct (run c w) as [[?|] ?] eqn:E
          | |- context [if negb (?b =? "") then _ else _] => destruct (negb (b =? ""))
          end; sb_simpl);
  intros H; injection H as <- <- <-; eexists; (split; [rewrite <- ?app_assoc; reflexivity|]);
  repeat constructor; eexists; reflexivity.
Qed.

Lemma process_loop_log {W} (run : runner W) ps sel b ks w log r w' log' :
  process_loop run ps sel b ks (w, log) = (r, (w', log')) ->
  exists ex, log' = log ++ ex /\
    Forall (fun e => exists pr args, In pr (selected_projects ps sel ks) /\
                                     e.1 = git (path pr) args) ex.
Proof.
  revert w log. induction ks as [|id ks IH]; intros w log; cbn [process_loop selected_projects].
  - unfold ret. intros H. injection H as <- <- <-. exists []. by rewrite app_nil_r.
  - destruct (sel !! id) as [[|]|] eqn:Hs.
    + destruct (project_at ps id) as [pr|] eqn:Hp.
      * unfold bind. destruct (switchBranch run (path pr) b (w, log)) as [e [w1 log1]] eqn:Hsb.
        destruct (switchBranch_log_git _ _ _ _ _ _ _ _ Hsb) as (ex1 & -> & Hex1).
        assert (Hex1' : Forall (fun e => exists pr' args, In pr' (pr :: selected_projects ps sel ks) /\
                                        e.1 = git (path pr') args) ex1).
        { eapply Forall_impl; [exact Hex1|]. intros x [args Hx]. exists pr, args.
          split; [by left|exact Hx]. }
        destruct e as [e|].
        -- unfold ret. intros H. injection H as <- <- <-. by exists ex1.
        -- intros H. destruct (IH _ _ H) as (ex2 & -> & Hex2).
           exists (ex1 ++ ex2). split; [by rewrite app_assoc|].
           apply Forall_app. split; [exact Hex1'|].
           eapply Forall_impl; [exact Hex2|]. intros x (pr' & args & Hin & Hx).
           exists pr', args. split; [by right|exact Hx].
      * unfold ret. intros H. injection H as <- <- <-. exists []. by rewrite app_nil_r.
    + exact (IH w log).
    + exact (IH w log).
Qed.

(* ------------------------------------------------------------------ *)
(** ** Properties of the running program *)

(** Every model the TUI reaches from [main]'s initial model satisfies
    [ui_inv]: the project list is the discovered one, every key of the
    selection map is a project index, the cursor stays on a row of its
    screen, the action is 0 or 1, the branch screen only opens for
    "create branch" with a non-empty map, and neither [modeProcessing]
    nor [processing = true] is ever reached. *)
Theorem reachable_states_invariant f m keys :
  main f = RunProgram m ->
  ui_inv (findProjects f) (fst (run_keys m keys None)).
Proof. intros H. exact (proj1 (run_keys_ui_inv f m keys H)). Qed.

(** A batch issued from any reachable state never panics on
    [m.projects[id]], whatever the map's iteration order and whatever
    the commands return. *)
Theorem reachable_batch_never_panics {W} (run : runner W) f m keys m0 b ks s :
  main f = RunProgram m ->
  snd (run_keys m keys None) = Some (ProcessProjects m0 b) ->
  fst (processProjects run m0 b ks s) <> None.
Proof.
  intros H Hc. destruct (proj2 (run_keys_ui_inv f m keys H) m0 b Hc) as [(Hp & Hsel & _) _].
  unfold processProjects. apply process_loop_no_panic.
  intros id Hid. apply project_at_in_range. rewrite Hp. exact (Hsel id true Hid).
Qed.

(** A batch is issued only by enter, with a non-empty selection map:
    from the repository screen for the action "switch to main" (action
    0) with branch [""], or from the branch screen for "create branch"
    (action 1) with the typed, non-empty branch name. *)
Theorem reachable_batch_origin f m keys m0 b :
  main f = RunProgram m ->
  snd (run_keys m keys None) = Some (ProcessProjects m0 b) ->
  size (selected m0) <> 0%nat /\
  ((mode m0 = modeSelectProjects /\ action m0 = 0%Z /\ b = "") \/
   (mode m0 = modeEnterBranch /\ action m0 = 1%Z /\ b = branchName m0 /\ b <> "")).
Proof.
  intros H Hc.
  destruct (proj2 (run_keys_ui_inv f m keys H) m0 b Hc)
    as [(_ & _ & Hact & _ & Hmode) [_ [(Hm & Hs & Ha & ->)|(Hm & -> & Hb)]]];
    rewrite Hm in Hmode.
  - split; [done|left]. repeat split; [done|lia].
  - destruct Hmode as (_ & Ha & Hs). split; [done|right]. done.
Qed.

(** The branch name never contains a ['q']: typing [q] on the branch
    screen quits instead of appending it.  So no batch ever gets such
    a name. *)
Theorem reachable_branch_has_no_q f m keys :
  main f = RunProgram m ->
  no_q (branchName (fst (run_keys m keys None))) /\
  (forall m0 b, snd (run_keys m keys None) = Some (ProcessProjects m0 b) -> no_q b).
Proof.
  intros H. destruct (main_run _ _ H) as [-> _].
  apply (run_keys_preserves (fun m => no_q (branchName m)) (fun _ b => no_q b)).
  - intros m' key. apply no_q_update.
  - intros m1 key m' m0 b Hq Hu.
    destruct (update_batch_cmd _ _ _ _ _ Hu) as (-> & _ & _ & [(_ & _ & _ & ->)|(_ & -> & _)]);
      [intros []|exact Hq].
  - intros [].
  - intros; discriminate.
Qed.

(** On the branch screen, typing one byte other than [q] and then
    backspace gives back the very same model, with no command. *)
Theorem type_then_backspace m key :
  mode m = modeEnterBranch -> String.length key = 1%nat -> key <> "q" ->
  run_keys m [key; "backspace"] None = (m, None).
Proof.
  intros Hm Hl Hq. cbn [run_keys]. unfold Update at 1. rewrite Hm. unfold updateBranchInput.
  rewrite (proj2 (String.eqb_neq key "q") Hq).
  rewrite !eqb_length_false by (rewrite Hl; discriminate).
  rewrite Hl. cbn [Nat.eqb orb].
  unfold Update. model_simpl. rewrite Hm. unfold updateBranchInput. cbn -[drop_last Nat.ltb].
  destruct key as [|a [|]]; try discriminate.
  rewrite drop_last_append.
  replace (0 <? String.length (branchName m +:+ String a ""))%nat with true.
  - model_simpl. destruct m; reflexivity.
  - symmetry. apply Nat.ltb_lt.
    induction (branchName m) as [|c t IH]; simpl; lia.
Qed.

(** Confirming the repository screen for "create branch" and pressing
    esc on the branch screen returns to the repository screen with the
    same selection, cursor and action; only the branch name is reset. *)
Theorem confirm_then_back m :
  mode m = modeSelectProjects -> action m = 1%Z -> size (selected m) <> 0%nat ->
  run_keys m ["enter"; "esc"] None = (set_branchName "" m, None).
Proof.
  intros Hm Ha Hs. cbn [run_keys]. unfold Update at 1. rewrite Hm.
  unfold updateProjectSelect. cbn -[size].
  rewrite (proj2 (Nat.eqb_neq _ _) Hs), Ha. cbn.
  destruct m; cbn in *; subst; reflexivity.
Qed.

(** Toggling the same repository twice reads back as before for every
    key, but the map now holds the cursor's key: a missing key comes
    back as an explicit [false]. *)
Theorem toggle_twice m :
  mode m = modeSelectProjects ->
  let '(m', c) := run_keys m [" "; " "] None in
  c = None /\
  m' = set_selected (<[cursor m := sel_get (selected m) (cursor m)]> (selected m)) m /\
  (forall k, sel_get (selected m') k = sel_get (selected m) k).
Proof.
  intros Hm. cbn [run_keys]. unfold Update at 1. rewrite Hm, update_projects_space.
  unfold Update. model_simpl. rewrite Hm, update_projects_space. model_simpl.
  assert (Hg : forall s k v, sel_get (<[k:=v]> s) k = v)
    by (intros; unfold sel_get; by rewrite lookup_insert_eq).
  rewrite Hg, negb_involutive, insert_insert_eq.
  split; [done|split].
  - destruct m; reflexivity.
  - intros k. unfold sel_get. rewrite lookup_insert.
    case_decide; [subst k; reflexivity|reflexivity].
Qed.

(** On the repository screen, up then down from any row but the first
    gives back the same model. *)
Theorem up_then_down m :
  mode m = modeSelectProjects -> (0 < cursor m < Z.of_nat (length (projects m)))%Z ->
  run_keys m ["up"; "down"] None = (m, None).
Proof.
  intros Hm Hc. cbn [run_keys]. unfold Update at 1. rewrite Hm. unfold updateProjectSelect.
  cbn -[Z.ltb]. rewrite (proj2 (Z.ltb_lt 0 (cursor m)) ltac:(lia)).
  unfold Update. model_simpl. rewrite Hm. unfold updateProjectSelect. cbn -[Z.ltb].
  rewrite (proj2 (Z.ltb_lt _ _)) by lia. model_simpl.
  replace (cursor m - 1 + 1)%Z with (cursor m) by lia. by destruct m.
Qed.

(** A batch whose visited keys are all unselected ([false] or absent)
    runs no command, leaves the state untouched and reports completion. *)
Theorem batch_without_selection_runs_nothing {W} (run : runner W) m b ks s :
  (forall id, In id ks -> selected m !! id <> Some true) ->
  processProjects run m b ks s = (Some MsgProcessComplete, s).
Proof.
  unfold processProjects. induction ks as [|id ks IH]; intros H; cbn [process_loop]; [done|].
  destruct (selected m !! id) as [[|]|] eqn:Hs.
  - exfalso. by apply (H id (or_introl eq_refl)).
  - apply IH. intros j Hj. apply H. by right.
  - apply IH. intros j Hj. apply H. by right.
Qed.

(** The batch only appends to the log, and every command it issues is
    a [git -C] command in a repository the loop visits with [true]. *)
Theorem batch_only_touches_selected {W} (run : runner W) m b ks w log :
  let '(_, (_, log')) := processProjects run m b ks (w, log) in
  exists ex, log' = log ++ ex /\
    Forall (fun e => exists pr args,
                In pr (selected_projects (projects m) (selected m) ks) /\
                e.1 = git (path pr) args) ex.
Proof.
  destruct (processProjects run m b ks (w, log)) as [r [w' log']] eqn:E.
  exact (process_loop_log run _ _ _ _ _ _ _ _ _ E).
Qed.

(** [Update] only ever sets the error line to one of its two messages;
    it never clears it. *)
Theorem update_error_only_set m message :
  let m' := fst (Update m message) in
  error m' = error m \/ error m' = "No projects selected" \/
  error m' = "Branch name cannot be empty".
Proof.
  destruct message as [key|]; cbn zeta; [|by left].
  unfold Update. destruct (mode m);
    [unfold updateActionSelect|unfold updateProjectSelect|unfold updateBranchInput|];
    split_ifs; model_simpl; auto.
Qed.

(** [Update] returns [tea.Quit] only for the keys q and ctrl+c, and
    then leaves the model as it is. *)
Theorem quit_only_on_q m message m' :
  Update m message = (m', Some Quit) ->
  m' = m /\ exists key, message = KeyMsg key /\ (key = "q" \/ key = "ctrl+c").
Proof.
  destruct message as [key|]; [|discriminate].
  unfold Update. destruct (mode m);
    [unfold updateActionSelect|unfold updateProjectSelect|unfold updateBranchInput|];
    split_ifs; intros H; try discriminate; injection H as <-;
    (split; [done|exists key; split; [done|]]);
    apply orb_true_iff in E as [E|E]; apply String.eqb_eq in E; auto.
Qed.

(** When the parent directory lists no entry (it is empty, or reading
    it fails), [main] exits with status 1 and the "no repositories"
    line. *)
Theorem main_exits_on_empty_parent f :
  fst (read_dir f (parent_dir f)) = [] -> main f = ExitWith 1 no_repos_message.
Proof. intros H. unfold main, findProjects. by rewrite H. Qed.


(* ------------------------------------------------------------------ *)
(** ** Instances of the properties above *)

Lemma confirm_action_selects_all_witness :
  mode mixed_start = modeSelectAction /\
  selected (fst (Update mixed_start (KeyMsg "enter"))) !! 1%Z = Some true.
Proof.
  assert (H : mode mixed_start = modeSelectAction) by reflexivity.
  split; [exact H|].
  pose proof (confirm_action_selects_all mixed_start H) as T.
  destruct (Update mixed_start (KeyMsg "enter")) as [m' c].
  destruct T as (_ & _ & _ & _ & Hk). cbn [fst]. rewrite Hk. reflexivity.
Defined.

Lemma toggle_one_flips_cursor_witness :
  mode both_selected_screen = modeSelectProjects /\
  sel_get (selected (fst (Update both_selected_screen (KeyMsg " "))))
          (cursor both_selected_screen) = false.
Proof.
  assert (H : mode both_selected_screen = modeSelectProjects) by reflexivity.
  split; [exact H|].
  pose proof (toggle_one_flips_cursor both_selected_screen H) as T.
  destruct (Update both_selected_screen (KeyMsg " ")) as [m' c].
  destruct T as (_ & Hg & _). cbn [fst]. rewrite Hg. reflexivity.
Defined.

Lemma toggle_all_result_witness :
  mode both_selected_screen = modeSelectProjects /\
  selected (fst (Update both_selected_screen (KeyMsg "a"))) = ∅.
Proof.
  assert (H : mode both_selected_screen = modeSelectProjects) by reflexivity.
  split; [exact H|].
  pose proof (toggle_all_result both_selected_screen H) as T.
  destruct (Update both_selected_screen (KeyMsg "a")) as [m' c].
  destruct T as (_ & [[_ He]|[Hs _]]); [exact He|].
  exfalso. apply Hs. reflexivity.
Defined.

Lemma reachable_states_invariant_witness :
  main fs_mixed = RunProgram mixed_start /\
  ui_inv (findProjects fs_mixed)
         (fst (run_keys mixed_start ["down"; "enter"; "down"; " "; "enter"] None)).
Proof.
  assert (H : main fs_mixed = RunProgram mixed_start) by reflexivity.
  split; [exact H|]. exact (reachable_states_invariant _ _ _ H).
Defined.

Lemma reachable_batch_never_panics_witness :
  main fs_mixed = RunProgram mixed_start /\
  fst (processProjects (failing_runner []) (fst (run_keys mixed_start ["enter"] None)) ""
                       [1%Z; 0%Z] (0%nat, [])) <> None.
Proof.
  assert (H : main fs_mixed = RunProgram mixed_start) by reflexivity.
  split; [exact H|].
  apply (reachable_batch_never_panics (failing_runner []) fs_mixed mixed_start
           ["enter"; "enter"]); [exact H|reflexivity].
Defined.

Lemma reachable_batch_origin_witness :
  main fs_mixed = RunProgram mixed_start /\
  action (fst (run_keys mixed_start ["down"; "enter"; "enter"; "x"] None)) = 1%Z.
Proof.
  assert (H : main fs_mixed = RunProgram mixed_start) by reflexivity.
  split; [exact H|].
  pose proof (reachable_batch_origin fs_mixed mixed_start
                ["down"; "enter"; "enter"; "x"; "enter"]
                (fst (run_keys mixed_start ["down"; "enter"; "enter"; "x"] None)) "x"
                H ltac:(reflexivity)) as T.
  destruct T as [_ [(Hm & _)|(_ & Ha & _)]]; [|exact Ha].
  exfalso. vm_compute in Hm. discriminate.
Defined.

Lemma reachable_branch_has_no_q_witness :
  main fs_mixed = RunProgram mixed_start /\
  no_q (branchName (fst (run_keys mixed_start
                           ["down"; "enter"; "enter"; "x"; "q"; "y"] None))).
Proof.
  assert (H : main fs_mixed = RunProgram mixed_start) by reflexivity.
  split; [exact H|]. exact (proj1 (reachable_branch_has_no_q _ _ _ H)).
Defined.

Lemma type_then_backspace_witness :
  (mode branch_screen = modeEnterBranch /\ String.length "x" = 1%nat /\ "x" <> "q") /\
  run_keys branch_screen ["x"; "backspace"] None = (branch_screen, None).
Proof.
  assert (H1 : mode branch_screen = modeEnterBranch) by reflexivity.
  assert (H2 : String.length "x" = 1%nat) by reflexivity.
  assert (H3 : "x" <> "q") by discriminate.
  split; [auto|]. exact (type_then_backspace branch_screen "x" H1 H2 H3).
Defined.

Lemma confirm_then_back_witness :
  (mode create_select_screen = modeSelectProjects /\ action create_select_screen = 1%Z /\
   size (selected create_select_screen) <> 0%nat) /\
  run_keys create_select_screen ["enter"; "esc"] None =
    (set_branchName "" create_select_screen, None).
Proof.
  assert (H1 : mode create_select_screen = modeSelectProjects) by reflexivity.
  assert (H2 : action create_select_screen = 1%Z) by reflexivity.
  assert (H3 : size (selected create_select_screen) <> 0%nat) by (vm_compute; discriminate).
  split; [auto|]. exact (confirm_then_back create_select_screen H1 H2 H3).
Defined.

Lemma toggle_twice_witness :
  mode empty_selection_screen = modeSelectProjects /\
  selected (fst (run_keys empty_selection_screen [" "; " "] None)) = <[0%Z := false]> ∅.
Proof.
  assert (H : mode empty_selection_screen = modeSelectProjects) by reflexivity.
  split; [exact H|].
  pose proof (toggle_twice empty_selection_screen H) as T.
  destruct (run_keys empty_selection_screen [" "; " "] None) as [m' c].
  destruct T as (_ & -> & _). reflexivity.
Defined.

Lemma up_then_down_witness :
  (mode (fst (run_keys mixed_start ["enter"; "down"] None)) = modeSelectProjects /\
   (0 < cursor (fst (run_keys mixed_start ["enter"; "down"] None)) <
    Z.of_nat (length (projects (fst (run_keys mixed_start ["enter"; "down"] None)))))%Z) /\
  run_keys (fst (run_keys mixed_start ["enter"; "down"] None)) ["up"; "down"] None =
    (fst (run_keys mixed_start ["enter"; "down"] None), None).
Proof.
  assert (H1 : mode (fst (run_keys mixed_start ["enter"; "down"] None)) = modeSelectProjects)
    by reflexivity.
  assert (H2 : (0 < cursor (fst (run_keys mixed_start ["enter"; "down"] None)) <
                Z.of_nat (length (projects (fst (run_keys mixed_start ["enter"; "down"] None)))))%Z)
    by (split; vm_compute; reflexivity).
  split; [auto|]. exact (up_then_down _ H1 H2).
Defined.

Lemma batch_without_selection_runs_nothing_witness :
  (forall id, In id [0%Z] -> selected unselected_one !! id <> Some true) /\
  processProjects (failing_runner []) unselected_one "x" [0%Z] (0%nat, []) =
    (Some MsgProcessComplete, (0%nat, [])).
Proof.
  assert (H : forall id, In id [0%Z] -> selected unselected_one !! id <> Some true)
    by (intros id [<-|[]]; vm_compute; discriminate).
  split; [exact H|]. exact (batch_without_selection_runs_nothing _ _ _ _ _ H).
Defined.

Lemma quit_only_on_q_witness :
  Update branch_screen (KeyMsg "q") = (branch_screen, Some Quit) /\
  exists key, KeyMsg "q" = KeyMsg key /\ (key = "q" \/ key = "ctrl+c").
Proof.
  assert (H : Update branch_screen (KeyMsg "q") = (branch_screen, Some Quit))
    by reflexivity.
  split; [exact H|]. exact (proj2 (quit_only_on_q _ _ _ H)).
Defined.

Lemma main_exits_on_empty_parent_witness :
  fst (read_dir fs_empty (parent_dir fs_empty)) = [] /\
  main fs_empty = ExitWith 1 no_repos_message.
Proof.
  assert (H : fst (read_dir fs_empty (parent_dir fs_empty)) = []) by reflexivity.
  split; [exact H|]. exact (main_exits_on_empty_parent _ H).
Defined.


(* ------------------------------------------------------------------ *)
(** ** The batch in the running program *)

Lemma ran_projects_snoc ps reads k v :
  ran_projects ps (reads ++ [(k, v)]) =
  ran_projects ps reads ++
    (if v then match project_at ps k with Some pr => [pr] | None => [] end else []).
Proof.
  induction reads as [|[k' [|]] reads IH]; cbn.
  - destruct v; [destruct (project_at ps k)|]; reflexivity.
  - destruct (project_at ps k'); cbn; rewrite IH; reflexivity.
  - exact IH.
Qed.

Lemma count_insert {A} (f : A -> bool) (l : list A) i x y :
  l !! i = Some y ->
  (length (List.filter f (<[i:=x]> l)) + (if f y then 1 else 0) =
   length (List.filter f l) + (if f x then 1 else 0))%nat.
Proof.
  intros Hi. pose proof (lookup_lt_Some _ _ _ Hi) as Hlt.
  rewrite (insert_take_drop l i x Hlt).
  rewrite <- (take_drop_middle l i y Hi) at 3.
  rewrite !List.filter_app. cbn. rewrite !length_app.
  destruct (f x), (f y); cbn; lia.
Qed.

Lemma count_detach s l :
  length (List.filter is_finished (map (detach s) l)) = length (List.filter is_finished l).
Proof.
  induction l as [|bt l IH]; [reflexivity|].
  assert (E : is_finished (detach s bt) = is_finished bt)
    by (destruct bt as [? [|] ? ? ? ?]; reflexivity).
  cbn. rewrite E. destruct (is_finished bt); cbn; rewrite IH; reflexivity.
Qed.

(** A batch keeps its invariant while the screen changes, and when the
    screen replaces its map. *)
Lemma bt_inv_key ps ui ui' bt :
  ui_inv ps ui -> ui_inv ps ui' -> bt_inv ps ui bt ->
  bt_inv ps ui' bt /\ bt_inv ps ui' (detach (selected ui) bt).
Proof.
  intros Hu Hu' (Hp & Hr & Hl & Hf).
  destruct bt as [p0 [|s0] br ph rd lg]; cbn in *.
  - split; (split; [exact Hp|split; [|split; [exact Hl|exact Hf]]]).
    + exact (proj1 (proj2 Hu')).
    + exact (proj1 (proj2 Hu)).
  - split; (split; [exact Hp|split; [exact Hr|split; [exact Hl|exact Hf]]]).
Qed.

Lemma rt_inv_init {W} ps (w : W) : rt_inv ps (rt_init (initialModel ps) w).
Proof.
  split; [exact (ui_inv_initial ps)|]. split; [constructor|]. cbn. lia.
Qed.

(** Every step of the running program keeps [rt_inv] when no command
    fails. *)
Lemma rt_step_inv {W} (run : runner W) ps rs rs' :
  (forall c w, fst (run c w) = None) -> ps <> [] ->
  rt_inv ps rs -> rt_step run rs rs' -> rt_inv ps rs'.
Proof.
  intros Hok Hne (Hui & Hbt & Hcnt) Hst.
  destruct Hst as [rs key _|rs x inbox _ Hin|rs i bt ks _ Hi Hph _
                  |rs i bt start k v _ Hi Hph Hk _|rs i bt start _ Hi Hph _].
  - pose proof (ui_inv_update ps (rt_ui rs) key Hne Hui) as Hui'.
    assert (Hbts : Forall (bt_inv ps (fst (Update (rt_ui rs) (KeyMsg key))))
                     (if replaces_map (rt_ui rs) key
                      then map (detach (selected (rt_ui rs))) (rt_batches rs)
                      else rt_batches rs)).
    { destruct (replaces_map _ _).
      - apply Forall_map. eapply Forall_impl; [exact Hbt|].
        intros bt Hb. exact (proj2 (bt_inv_key _ _ _ _ Hui Hui' Hb)).
      - eapply Forall_impl; [exact Hbt|].
        intros bt Hb. exact (proj1 (bt_inv_key _ _ _ _ Hui Hui' Hb)). }
    assert (Hc : length (List.filter is_finished
                   (if replaces_map (rt_ui rs) key
                    then map (detach (selected (rt_ui rs))) (rt_batches rs)
                    else rt_batches rs)) = length (List.filter is_finished (rt_batches rs)))
      by (destruct (replaces_map _ _); [apply count_detach|reflexivity]).
    revert Hbts Hc. unfold key_step. cbv zeta.
    destruct (replaces_map (rt_ui rs) key); intros Hbts Hc;
    destruct (Update (rt_ui rs) (KeyMsg key)) as [m' [[|m0 b]|]] eqn:Hu;
    cbn in Hui', Hbts; (split; [exact Hui'|]); cbn;
    try (split; [exact Hbts|lia]);
    apply update_batch_cmd in Hu as (-> & -> & _);
    (split; [apply Forall_app; split; [exact Hbts|constructor; [|constructor]]|
             rewrite List.filter_app, length_app; cbn; lia]);
    (split; [exact (proj1 Hui)|split; [exact (proj1 (proj2 Hui))|split; [reflexivity|]]]);
    intros r Hr; discriminate Hr.
  - unfold deliver_step. rewrite Hin. split; [exact Hui|]. split; [exact Hbt|].
    cbn. rewrite Hin in Hcnt. cbn in Hcnt. destruct (is_complete x); cbn in Hcnt; lia.
  - unfold tick_step. rewrite Hi. split; [exact Hui|]. cbn.
    pose proof (Forall_lookup_1 _ _ _ _ Hbt Hi) as (Hp & Hr & Hl & Hf).
    split.
    + apply Forall_insert; [exact Hbt|].
      split; [exact Hp|split; [exact Hr|split; [exact Hl|]]].
      intros r Hr'. discriminate Hr'.
    + match goal with |- context [<[i := ?x]> _] =>
        pose proof (count_insert is_finished _ i x bt Hi) as E;
        assert (Ex : is_finished x = false) by (unfold is_finished; cbn; reflexivity)
      end.
      assert (Ey : is_finished bt = false) by (unfold is_finished; rewrite Hph; reflexivity).
      rewrite Ex, Ey in E. lia.
  - unfold visit_step. rewrite Hi.
    pose proof (Forall_lookup_1 _ _ _ _ Hbt Hi) as (Hp & Hr & Hl & Hf).
    assert (Hv : sel_get (map_of (rt_ui rs) (bt_map bt)) k = v)
      by (unfold sel_get; rewrite Hk; reflexivity).
    rewrite Hv. destruct v; cbn.
    + destruct (project_at_in_range ps k (Hr k true Hk)) as [pr Hpr].
      assert (Hpr' : project_at (bt_projects bt) k = Some pr) by (rewrite Hp; exact Hpr).
      rewrite Hpr'.
      destruct (switchBranch_all_ok run (path pr) (bt_branch bt) (rt_world rs) (bt_log bt)
                  (fun c w _ => Hok c w)) as [w' Hsw].
      rewrite Hsw. split; [exact Hui|]. cbn. rewrite app_nil_r. split.
      * apply Forall_insert; [exact Hbt|].
        split; [exact Hp|split; [exact Hr|split; [|exact Hf]]]. cbn.
        unfold bt_ran. cbn. rewrite ran_projects_snoc, Hpr', map_app, concat_app, Hl.
        cbn. rewrite app_nil_r. reflexivity.
      * match goal with |- context [<[i := ?x]> _] =>
          pose proof (count_insert is_finished _ i x bt Hi) as E;
          assert (Ex : is_finished x = false)
            by (unfold is_finished; cbn; rewrite Hph; reflexivity)
        end.
        assert (Ey : is_finished bt = false) by (unfold is_finished; rewrite Hph; reflexivity).
        rewrite Ex, Ey in E. lia.
    + split; [exact Hui|]. cbn. split.
      * apply Forall_insert; [exact Hbt|].
        split; [exact Hp|split; [exact Hr|split; [|exact Hf]]]. cbn.
        unfold bt_ran. cbn. rewrite ran_projects_snoc, app_nil_r. exact Hl.
      * match goal with |- context [<[i := ?x]> _] =>
          pose proof (count_insert is_finished _ i x bt Hi) as E;
          assert (Ex : is_finished x = false)
            by (unfold is_finished; cbn; rewrite Hph; reflexivity)
        end.
        assert (Ey : is_finished bt = false) by (unfold is_finished; rewrite Hph; reflexivity).
        rewrite Ex, Ey in E. lia.
  - unfold done_step. rewrite Hi. split; [exact Hui|]. cbn.
    pose proof (Forall_lookup_1 _ _ _ _ Hbt Hi) as (Hp & Hr & Hl & Hf).
    split.
    + apply Forall_insert; [exact Hbt|].
      split; [exact Hp|split; [exact Hr|split; [exact Hl|]]].
      intros r Hr'. injection Hr' as <-. reflexivity.
    + match goal with |- context [<[i := ?x]> _] =>
        pose proof (count_insert is_finished _ i x bt Hi) as E;
        assert (Ex : is_finished x = true) by (unfold is_finished; cbn; reflexivity)
      end.
      assert (Ey : is_finished bt = false) by (unfold is_finished; rewrite Hph; reflexivity).
      rewrite Ex, Ey in E. cbn in E.
      rewrite List.filter_app, length_app. cbn. lia.
Qed.

Lemma rt_steps_inv {W} (run : runner W) ps rs rs' :
  (forall c w, fst (run c w) = None) -> ps <> [] ->
  rt_inv ps rs -> rt_steps run rs rs' -> rt_inv ps rs'.
Proof.
  intros Hok Hne Hinv Hs. induction Hs as [rs|rs1 rs2 rs3 H12 _ IH]; [exact Hinv|].
  apply IH. exact (rt_step_inv run ps rs1 rs2 Hok Hne Hinv H12).
Qed.

(** Handling a key changes no batch's phase, reads or log. *)
Lemma key_step_progress {W} (rs : runtime W) key :
  map (fun bt => (bt_phase bt, bt_reads bt, bt_log bt))
      (take (length (rt_batches rs)) (rt_batches (key_step rs key))) =
  map (fun bt => (bt_phase bt, bt_reads bt, bt_log bt)) (rt_batches rs).
Proof.
  assert (Hlen : length (if replaces_map (rt_ui rs) key
                         then map (detach (selected (rt_ui rs))) (rt_batches rs)
                         else rt_batches rs) = length (rt_batches rs))
    by (destruct (replaces_map _ _); [apply length_map|reflexivity]).
  assert (Hmap : map (fun bt => (bt_phase bt, bt_reads bt, bt_log bt))
                   (if replaces_map (rt_ui rs) key
                    then map (detach (selected (rt_ui rs))) (rt_batches rs)
                    else rt_batches rs) =
                 map (fun bt => (bt_phase bt, bt_reads bt, bt_log bt)) (rt_batches rs)).
  { destruct (replaces_map _ _); [|reflexivity].
    rewrite map_map. apply map_ext. intros [? [|] ? ? ? ?]; reflexivity. }
  revert Hlen Hmap. unfold key_step. cbv zeta.
  destruct (replaces_map (rt_ui rs) key); intros Hlen Hmap;
  destruct (Update (rt_ui rs) (KeyMsg key)) as [m' [[|m0 b]|]]; cbn;
  rewrite ?(take_app_length' _ _ _ (eq_sym Hlen)), ?take_ge by lia; exact Hmap.
Qed.

Ltac rt_side :=
  match goal with
  | |- _ ≡ₚ _ => vm_compute; first [reflexivity | apply Permutation_swap]
  | |- ~ In _ _ => vm_compute; intuition discriminate
  | |- forall k, In k _ -> In k _ => intros ? ?; vm_compute in *; intuition
  | _ => reflexivity
  end.



